(** * KingsForms automation engine: a shallow embedding of
      [src/automationEngine.js] and the properties of its submission
      controller.

    The engine is a JavaScript class whose methods are [async]: between two
    [await]s the code runs without interruption, and while an [await] is
    pending the control plane ([server.js]) may call [stop()] or [pause()].
    The embedding makes that explicit:

    - the engine object is a record ([Engine]); every method is a function
      that passes it along;
    - every awaited interaction with the browser, and every [sleep], is one
      step of a [World]: an oracle that tells, for the n-th step, what the
      browser answered, how long it took, and whether the control plane
      asked to stop while the step was pending;
    - a thrown [Error] is the [Throw] outcome; [try]/[catch]/[finally] are
      written out as matches on the outcome;
    - numbers that the code only uses as integers ([retryCount],
      [maxRetries], [attempts]) are in [Z]; the other numbers are doubles,
      given by their value in [Q], and every operation of the code on them
      rounds its exact result to the nearest double ([Double]); the time
      of the world is in milliseconds, in [Q];
    - [logger] calls do not touch the engine and are left out, except the
      message of [stop] and [pause], their only difference. *)

From Stdlib Require Import List ZArith QArith Qround Qabs Qpower String Ascii
  Bool Lia Lqa Sorted.
Import ListNotations.

Open Scope list_scope.

(** ** Strings, as the JavaScript methods used by the engine *)

Module JsString.

Open Scope string_scope.

(** [hay.includes(needle)] *)
Fixpoint includes (needle hay : string) : bool :=
  String.prefix needle hay
  || match hay with
     | EmptyString => false
     | String _ rest => includes needle rest
     end.

(** White space removed by [trim()], for the ASCII range: tab, line feed,
    vertical tab, form feed, carriage return and space. *)
Definition isSpace (c : ascii) : bool :=
  let n := nat_of_ascii c in
  ((9 <=? n) && (n <=? 13))%nat || (n =? 32)%nat.

Fixpoint trimStart (s : string) : string :=
  match s with
  | EmptyString => EmptyString
  | String c rest => if isSpace c then trimStart rest else s
  end.

(** Drops the white space at the end: a character is kept when it is not a
    space or when something is kept after it. *)
Fixpoint trimEnd (s : string) : string :=
  match s with
  | EmptyString => EmptyString
  | String c rest =>
      match trimEnd rest with
      | EmptyString => if isSpace c then EmptyString else String c EmptyString
      | kept => String c kept
      end
  end.

(** [s.trim()] *)
Definition trim (s : string) : string := trimEnd (trimStart s).

(** [s.split(sep)] for a separator of one character; never empty. *)
Fixpoint split (sep : ascii) (s : string) : list string :=
  match s with
  | EmptyString => [EmptyString]
  | String c rest =>
      if Ascii.eqb c sep then EmptyString :: split sep rest
      else match split sep rest with
           | [] => [String c EmptyString]
           | piece :: pieces => String c piece :: pieces
           end
  end.

(** [pieces.pop()] on the array that [split] returned. *)
Definition pop (pieces : list string) : string := last pieces EmptyString.


(** Truthiness of a string: the empty string is falsy. *)
Definition truthy (s : string) : bool :=
  match s with EmptyString => false | _ => true end.

End JsString.

(** ** Numbers *)

(** The numbers of JavaScript are the doubles of IEEE 754 (binary64). A
    finite double is a rational [m * 2^e] with [|m| < 2^53] and
    [-1074 <= e]; an operation computes the exact result and rounds it to
    the nearest double, to the one with the even [m] when two are equally
    near. The doubles have no value for a result of magnitude [2^1024] or
    more (the code gets [Infinity]): [rnd] rounds such a number like any
    other, and the statements about doubles bound their arguments. *)
Module Double.

Definition pow2 (e : Z) : Q := 2 ^ e.

(** The nearest integer, the even one when two are equally near. *)
Definition nearestEven (x : Q) : Z :=
  let f := Qfloor x in
  match Qcompare (x - inject_Z f) (1 # 2) with
  | Lt => f
  | Gt => (f + 1)%Z
  | Eq => if Z.even f then f else (f + 1)%Z
  end.

(** For [x > 0], the integer [e] with [2^e <= x < 2^(e+1)]. *)
Definition ilog2 (x : Q) : Z :=
  let e := (Z.log2 (Qnum x) - Z.log2 (Zpos (Qden x)))%Z in
  if Qle_bool (pow2 e) x then e else (e - 1)%Z.

(** The exponent of the last bit of the doubles around [x]: 53 bits from
    the leading one, and never below that of the subnormal numbers. *)
Definition exponent (x : Q) : Z := Z.max (ilog2 (Qabs x) - 52) (-1074).

(** The double nearest to [x]. *)
Definition rnd (x : Q) : Q :=
  if Qeq_bool x 0 then 0
  else
    let e := exponent x in
    Qred (inject_Z (nearestEven (x / pow2 e)) * pow2 e).

(** [x + y], [x - y], [x * y] and [x / y] on doubles. *)
Definition add (x y : Q) : Q := rnd (x + y).
Definition sub (x y : Q) : Q := rnd (x - y).
Definition mul (x y : Q) : Q := rnd (x * y).
Definition div (x y : Q) : Q := rnd (x / y).

(** The largest relative error of a rounding. *)
Definition unit : Q := pow2 (-53).

(** Zero, or a number that is not below the normal doubles: those are
    rounded with a relative error of [unit] at most. *)
Definition normal (x : Q) : Prop := x == 0 \/ pow2 (-1022) <= Qabs x.

End Double.

(** ** Configuration *)

(** The fields of [this.config] that the controller reads. The repository
    builds the engine without a [config] object, so [maxRetries] is
    [parseInt(process.env.MAX_RETRIES) || 3]: an integer, which may be
    negative; the two delay parameters are numbers (doubles). *)
Record Config := {
  url : string;
  submissionDelay : Q;
  maxRetries : Z;
  randomDelayVariation : Q
}.

(** The defaults of the constructor; [0.2] is the double nearest to it. *)
Definition defaultConfig : Config := {|
  url := "https://kingsforms.online/nobphcephzone3";
  submissionDelay := 5000;
  maxRetries := 3;
  randomDelayVariation := Double.rnd (2 # 10)
|}.

(** ** Pacing delay *)

(** [getRandomDelay()]; [random] is the value that [Math.random()] returns,
    a number in [0, 1). *)
Definition getRandomDelay (cfg : Config) (random : Q) : Q :=
  let baseDelay := submissionDelay cfg in
  let variation := Double.mul baseDelay (randomDelayVariation cfg) in
  Double.add baseDelay (Double.mul (Double.sub random (1 # 2)) variation).

(** ** Success detection *)

(** What a query of the page gives: the value, or the message of the error
    that the browser driver throws instead. *)
Inductive Query (A : Type) : Type :=
| Fault (message : string)
| Got (value : A).

Arguments Fault {A} message.
Arguments Got {A} value.

(** The submit control as [waitForSubmissionSuccess] looks at it:
    [btn.disabled] and [btn.style.display === "none"]. *)
Record Button := {
  disabled : bool;
  displayNone : bool
}.

(** The page as [waitForSubmissionSuccess] finds it, two seconds after the
    click on the submit control:
    - [currentUrl]: [page.url()];
    - [successIndicators]: how many elements match the success selectors;
    - [inputValues]: the [value] of every input that is not a submit, a
      button or a hidden one;
    - [errorElements]: the elements that match the error selectors, each
      given by its [textContent];
    - [evaluateFault]: the message of the error that [page.evaluate] throws
      when it is handed the array of those elements (see
      [evaluateErrorText]);
    - [submitButton]: the submit control, when there is one. *)
Record PageState := {
  currentUrl : string;
  successIndicators : Query nat;
  inputValues : Query (list string);
  errorElements : Query (list string);
  evaluateFault : string;
  submitButton : Query (option Button)
}.

(** The ways [waitForSubmissionSuccess] ends, one per [return] or [throw] of
    the source; only [Rejected] is a throw. *)
Inductive Detection :=
| SuccessDetected
| Rejected (message : string)
| ButtonMissing
| ButtonDisabled
| NoClearIndicator
| FrameDetached
| CheckFailed (message : string).

(** The [catch] block of [waitForSubmissionSuccess]. *)
Definition caught (message : string) : Detection :=
  if JsString.includes "Form validation error" message then Rejected message
  else if JsString.includes "Navigating frame was detached" message
       then FrameDetached
       else CheckFailed message.

(** [!currentUrl.includes(this.config.url.split("/").pop())] *)
Definition hasUrlChanged (cfg : Config) (pg : PageState) : bool :=
  negb (JsString.includes (JsString.pop (JsString.split "/" (url cfg)))
                          (currentUrl pg)).

(** [Array.from(inputs).some((input) => input.value.trim() === '')] *)
Definition formCleared (values : list string) : bool :=
  existsb (fun value => String.eqb (JsString.trim value) EmptyString) values.


(** [page.evaluate((els) => ..., errorElements)]. The argument is the array
    that [page.$$] returned: an array of element handles, which is not
    itself a handle. The driver passes it by value, so the callback does not
    receive the elements, [el.textContent] is undefined and its [trim()]
    throws a [TypeError]: the call never returns the text of the
    elements. *)
Definition evaluateErrorText (pg : PageState) (elements : list string)
  : Query string :=
  Fault (evaluateFault pg).

Definition waitForSubmissionSuccess (cfg : Config) (pg : PageState)
  : Detection :=
  match successIndicators pg with
  | Fault e => caught e
  | Got indicators =>
      match inputValues pg with
      | Fault e => caught e
      | Got values =>
          if (0 <? indicators)%nat || hasUrlChanged cfg pg || formCleared values
          then SuccessDetected
          else
            let lastStep :=
              match submitButton pg with
              | Fault e => caught e
              | Got None => ButtonMissing
              | Got (Some btn) =>
                  if disabled btn || displayNone btn then ButtonDisabled
                  else NoClearIndicator
              end in
            match errorElements pg with
            | Fault e => caught e
            | Got elements =>
                if (0 <? List.length elements)%nat then
                  match evaluateErrorText pg elements with
                  | Fault e => caught e
                  | Got text =>
                      if JsString.truthy text
                      then caught ("Form validation error: " ++ text)%string
                      else lastStep
                  end
                else lastStep
            end
      end
  end.

(** The error that leaves [waitForSubmissionSuccess], if any. *)
Definition thrown (d : Detection) : option string :=
  match d with
  | Rejected message => Some message
  | _ => None
  end.

(** ** The engine object *)

(** A record of the CSV file: field name and value, in the order of the
    columns. *)
Definition FormRecord := list (string * string).

(** An entry of [results.successful] or [results.failed]. The entries of
    [successful] have no [error] property. *)
Record Entry := {
  index : nat;
  record : FormRecord;
  error : option string;
  attempts : Z
}.

Record Results := {
  successful : list Entry;
  failed : list Entry;
  retries : nat
}.

Definition emptyResults : Results :=
  {| successful := []; failed := []; retries := 0 |}.

(** The fields of [this] that the controller writes. *)
Record Engine := {
  config : Config;
  isRunning : bool;
  currentIndex : nat;
  records : list FormRecord;
  results : Results
}.

(** The state of the constructor. *)
Definition newEngine (cfg : Config) : Engine :=
  {| config := cfg; isRunning := false; currentIndex := 0; records := [];
     results := emptyResults |}.

Definition setRunning (b : bool) (e : Engine) : Engine :=
  {| config := config e; isRunning := b; currentIndex := currentIndex e;
     records := records e; results := results e |}.

Definition setResults (r : Results) (e : Engine) : Engine :=
  {| config := config e; isRunning := isRunning e;
     currentIndex := currentIndex e; records := records e; results := r |}.

(** [this.currentIndex++] *)
Definition advance (e : Engine) : Engine :=
  {| config := config e; isRunning := isRunning e;
     currentIndex := S (currentIndex e); records := records e;
     results := results e |}.

(** [this.results.successful.push(entry)] *)
Definition pushSuccessful (entry : Entry) (e : Engine) : Engine :=
  setResults {| successful := successful (results e) ++ [entry];
                failed := failed (results e);
                retries := retries (results e) |} e.

(** [this.results.failed.push(entry)] *)
Definition pushFailed (entry : Entry) (e : Engine) : Engine :=
  setResults {| successful := successful (results e);
                failed := failed (results e) ++ [entry];
                retries := retries (results e) |} e.

(** [this.results.retries++] *)
Definition countRetry (e : Engine) : Engine :=
  setResults {| successful := successful (results e);
                failed := failed (results e);
                retries := S (retries (results e)) |} e.

(** The first lines of [startAutomation], after the guard. *)
Definition beginRun (recs : list FormRecord) (startIndex : nat) (e : Engine)
  : Engine :=
  {| config := config e; isRunning := true; currentIndex := startIndex;
     records := recs; results := emptyResults |}.

(** ** The world around the engine *)

(** What one fill-and-submit cycle meets: the error of [fillForm] (a field
    that is not found or cannot be written), the error of [submitForm] (no
    submit control, or a failed click), and the page that
    [waitForSubmissionSuccess] inspects. *)
Record Attempt := {
  fillFault : option string;
  submitFault : option string;
  page : PageState
}.

(** One awaited step, as the world decides it:
    - [stopRequested]: the control plane calls [stop()] or [pause()] while
      the step is pending;
    - [took]: the milliseconds a browser step takes (a [sleep] takes what
      the code asks for);
    - [fault]: the error of a navigation step ([navigateToForm],
      [handleRetry], the fresh form page);
    - [attempt]: what a fill-and-submit step meets;
    - [random]: the value of [Math.random()] when the step draws one. *)
Record Event := {
  stopRequested : bool;
  took : Q;
  fault : option string;
  attempt : Attempt;
  random : Q
}.

(** The n-th awaited step of a run. *)
Definition World := nat -> Event.

(** The engine together with the position in the world: the number of
    steps taken, the time in milliseconds, and the errors that the [catch]
    of [processRecord] has caught so far, each with the index of its record
    (what its [logger.warn] line reports). *)
Record Machine := {
  engine : Engine;
  tick : nat;
  now : Q;
  raised : list (nat * string)
}.

Definition onEngine (f : Engine -> Engine) (m : Machine) : Machine :=
  {| engine := f (engine m); tick := tick m; now := now m;
     raised := raised m |}.

(** The [logger.warn] of the [catch] block. *)
Definition warn (message : string) (m : Machine) : Machine :=
  {| engine := engine m; tick := tick m; now := now m;
     raised := raised m ++ [(currentIndex (engine m), message)] |}.

(** Completion of a method: it returns, or it throws an [Error] with a
    message. *)
Inductive Outcome :=
| Normal
| Throw (message : string).

(** ** Control requests *)

(** [stop()] and [pause()], with the line each one logs. *)
Definition stop (e : Engine) : string * Engine :=
  ("Stopping automation...", setRunning false e)%string.

Definition pause (e : Engine) : string * Engine :=
  ("Pausing automation...", setRunning false e)%string.

(** An awaited step that lasts [duration]: a request to stop that arrives
    meanwhile runs [stop] (or [pause]) on the engine, then the code goes
    on. *)
Definition await (w : World) (duration : Q) (m : Machine) : Machine :=
  {| engine := if stopRequested (w (tick m)) then snd (stop (engine m))
               else engine m;
     tick := S (tick m);
     now := now m + duration;
     raised := raised m |}.

(** An awaited call of the browser driver. *)
Definition driverStep (w : World) (m : Machine) : Machine :=
  await w (took (w (tick m))) m.

(** The time after which [setTimeout(callback, ms)] fires, as Node documents
    it: a delay below 1 or above 2147483647 is set to 1, any other is
    truncated to an integer. *)
Definition timerDelay (ms : Q) : Q :=
  if Qle_bool 1 ms && Qle_bool ms 2147483647 then inject_Z (Qfloor ms) else 1.

(** [sleep(ms)]: a promise that a timer resolves, and nothing else. *)
Definition sleep (w : World) (ms : Q) (m : Machine) : Machine :=
  await w (timerDelay ms) m.

(** ** The controller *)

(** [navigateToForm()]: the calls to the browser are one step; an error of
    any of them is thrown again as a navigation failure. *)
Definition navigateToForm (w : World) (m : Machine) : Outcome * Machine :=
  match fault (w (tick m)) with
  | Some message =>
      (Throw ("Navigation failed: " ++ message)%string, driverStep w m)
  | None => (Normal, driverStep w m)
  end.

(** [handleRetry()]: reload the page (or go to the form again when the frame
    was detached) and wait for the submit control; an error of the fallback
    or of the wait leaves the method. *)
Definition handleRetry (w : World) (m : Machine) : Outcome * Machine :=
  match fault (w (tick m)) with
  | Some message => (Throw message, driverStep w m)
  | None => (Normal, driverStep w m)
  end.

(** The [try] block inside the success branch of [processRecord]: the error
    of the navigation to a fresh form is logged and dropped. *)
Definition freshForm (w : World) (m : Machine) : Machine :=
  match fault (w (tick m)) with
  | Some _ => driverStep w m
  | None => driverStep w m
  end.

(** [fillForm(record); submitForm(); waitForSubmissionSuccess()]: the error
    that reaches the [catch] of [processRecord], if any. *)
Definition attemptError (cfg : Config) (a : Attempt) : option string :=
  match fillFault a with
  | Some message => Some message
  | None =>
      match submitFault a with
      | Some message => Some message
      | None => thrown (waitForSubmissionSuccess cfg (page a))
      end
  end.

(** The [while] loop of [processRecord]. Every turn that goes round again
    has raised [retryCount], so [maxRetries + 1] turns are enough: [gas]
    counts them, and [None] would mean that they were not (see
    [retryLoop_gas]). *)
Fixpoint retryLoop (gas : nat) (w : World) (r : FormRecord) (retryCount : Z)
  (m : Machine) : option (Outcome * Machine) :=
  let cfg := config (engine m) in
  if (retryCount <=? maxRetries cfg)%Z && isRunning (engine m) then
    match gas with
    | O => None
    | S gas' =>
        let m1 := driverStep w m in
        match attemptError cfg (attempt (w (tick m))) with
        | None =>
            let entry := {| index := currentIndex (engine m1);
                            record := r;
                            error := None;
                            attempts := retryCount + 1 |} in
            let m2 := onEngine (pushSuccessful entry) m1 in
            let m3 := freshForm w m2 in
            Some (Normal, onEngine advance m3)
        | Some message =>
            let retryCount' := (retryCount + 1)%Z in
            let m2 := warn message (onEngine countRetry m1) in
            if (retryCount' <=? maxRetries cfg)%Z then
              match handleRetry w m2 with
              | (Throw e, m3) => Some (Throw e, m3)
              | (Normal, m3) => retryLoop gas' w r retryCount' m3
              end
            else
              let entry := {| index := currentIndex (engine m2);
                              record := r;
                              error := Some message;
                              attempts := retryCount' |} in
              Some (Normal, onEngine advance (onEngine (pushFailed entry) m2))
        end
    end
  else Some (Normal, m).

(** The delay between two submissions, at the end of [processRecord]. *)
Definition pace (w : World) (m : Machine) : Machine :=
  if isRunning (engine m)
     && (currentIndex (engine m) <? List.length (records (engine m)))%nat
  then
    let delay := getRandomDelay (config (engine m)) (random (w (tick m))) in
    sleep w delay m
  else m.

(** [processRecord()]. Reading a property of [records[currentIndex]] throws
    a [TypeError] when there is no such record. *)
Definition processRecord (w : World) (m : Machine)
  : option (Outcome * Machine) :=
  match nth_error (records (engine m)) (currentIndex (engine m)) with
  | None =>
      Some (Throw "Cannot read properties of undefined (reading 'First Name')",
            m)
  | Some r =>
      let gas := Z.to_nat (maxRetries (config (engine m)) + 1) in
      match retryLoop gas w r 0 m with
      | None => None
      | Some (Throw e, m') => Some (Throw e, m')
      | Some (Normal, m') => Some (Normal, pace w m')
      end
  end.

(** The [while] loop of [startAutomation]. It need not end (a negative
    [maxRetries] makes [processRecord] do nothing for ever), so it runs on
    [fuel], one unit per record processed; [None] is a run that has not
    ended yet. *)
Fixpoint automationLoop (fuel : nat) (w : World) (m : Machine)
  : option (Outcome * Machine) :=
  if isRunning (engine m)
     && (currentIndex (engine m) <? List.length (records (engine m)))%nat
  then
    match fuel with
    | O => None
    | S fuel' =>
        match processRecord w m with
        | None => None
        | Some (Throw e, m') => Some (Throw e, m')
        | Some (Normal, m') => automationLoop fuel' w m'
        end
    end
  else Some (Normal, m).

(** [startAutomation(records, startIndex)]: the guard, the reset of the
    engine, then [try { navigate; loop } finally { isRunning = false }].
    [startIndex] is an index of [records] or beyond them, as the default
    and [resume] give it; the method does not check it, and below 0 the
    first [processRecord] would throw on [records[startIndex]]. *)
Definition startAutomation (fuel : nat) (w : World) (recs : list FormRecord)
  (startIndex : nat) (m : Machine) : option (Outcome * Machine) :=
  if isRunning (engine m) then
    Some (Throw "Automation is already running", m)
  else
    let m1 := onEngine (beginRun recs startIndex) m in
    match navigateToForm w m1 with
    | (Throw e, m2) => Some (Throw e, onEngine (setRunning false) m2)
    | (Normal, m2) =>
        match automationLoop fuel w m2 with
        | None => None
        | Some (outcome, m3) => Some (outcome, onEngine (setRunning false) m3)
        end
    end.

(** [resume()] *)
Definition resume (fuel : nat) (w : World) (m : Machine)
  : option (Outcome * Machine) :=
  if negb (isRunning (engine m))
     && (0 <? List.length (records (engine m)))%nat
  then
    let m1 := onEngine (setRunning true) m in
    startAutomation fuel w (records (engine m1)) (currentIndex (engine m1)) m1
  else Some (Normal, m).

(** ** Status *)

Record Status := {
  st_isRunning : bool;
  st_currentIndex : nat;
  st_totalRecords : nat;
  st_progress : Z;
  st_successful : nat;
  st_failed : nat;
  st_retries : nat
}.

(** [Math.round(x)]: the nearest integer, halves upwards. *)
Definition round (x : Q) : Z := Qfloor (x + (1 # 2)).

(** [records.length > 0 ? Math.round((currentIndex / records.length) * 100)
    : 0], for any integer [currentIndex]: the division and the
    multiplication are those of doubles. *)
Definition progress (currentIndex total : Z) : Z :=
  if (0 <? total)%Z
  then round (Double.mul (Double.div (inject_Z currentIndex) (inject_Z total))
                         100)
  else 0%Z.

(** [getStatus()] *)
Definition getStatus (e : Engine) : Status :=
  let total := List.length (records e) in
  {| st_isRunning := isRunning e;
     st_currentIndex := currentIndex e;
     st_totalRecords := total;
     st_progress := progress (Z.of_nat (currentIndex e)) (Z.of_nat total);
     st_successful := List.length (successful (results e));
     st_failed := List.length (failed (results e));
     st_retries := retries (results e) |}.

(** ** Worlds for the scenarios *)

(** The message of the [TypeError] that the callback of
    [evaluateErrorText] throws. *)
Definition handlesTypeError : string :=
  "Cannot read properties of undefined (reading 'trim')".

(** The form after a submission that the site acknowledges: a success
    banner, the inputs empty again. *)
Definition acknowledgedPage : PageState :=
  {| currentUrl := "https://kingsforms.online/nobphcephzone3";
     successIndicators := Got 1%nat;
     inputValues := Got [EmptyString; EmptyString];
     errorElements := Got [];
     evaluateFault := handlesTypeError;
     submitButton := Got (Some {| disabled := false; displayNone := false |}) |}.

(** The form after a submission that the site rejects: no banner, the
    inputs still filled, one error element with the given text. The
    detection cannot read that text (see [evaluateErrorText]). *)
Definition rejectedPage (text : string) : PageState :=
  {| currentUrl := "https://kingsforms.online/nobphcephzone3";
     successIndicators := Got 0%nat;
     inputValues := Got ["Ada"%string; "Lovelace"%string];
     errorElements := Got [text];
     evaluateFault := handlesTypeError;
     submitButton := Got (Some {| disabled := false; displayNone := false |}) |}.

(** A step in which nothing goes wrong and nobody asks to stop; when it is
    an attempt, the submission is acknowledged. *)
Definition quiet : Event :=
  {| stopRequested := false;
     took := 1000;
     fault := None;
     attempt := {| fillFault := None; submitFault := None;
                   page := acknowledgedPage |};
     random := 1 # 2 |}.

(** An attempt in which [fillForm] throws: the page has no element for the
    given field, and [fillField] throws its error. *)
Definition missingField (fieldId fieldName : string) : Event :=
  {| stopRequested := false;
     took := 1000;
     fault := None;
     attempt := {| fillFault := Some ("Field " ++ fieldId ++ " (" ++ fieldName
                                      ++ ") not found")%string;
                   submitFault := None;
                   page := acknowledgedPage |};
     random := 1 # 2 |}.

(** The same step, with a request to stop arriving while it is pending. *)
Definition withStop (ev : Event) : Event :=
  {| stopRequested := true;
     took := took ev;
     fault := fault ev;
     attempt := attempt ev;
     random := random ev |}.

(** The world that plays the given steps, then stays quiet. *)
Definition script (events : list Event) : World :=
  fun n => nth n events quiet.

(** A machine with a fresh engine, before any step. *)
Definition boot (cfg : Config) : Machine :=
  {| engine := newEngine cfg; tick := 0; now := 0; raised := [] |}.

Definition person (first last : string) : FormRecord :=
  [("First Name", first); ("Last Name", last)]%string.

Definition withMaxRetries (n : Z) (cfg : Config) : Config :=
  {| url := url cfg; submissionDelay := submissionDelay cfg;
     maxRetries := n; randomDelayVariation := randomDelayVariation cfg |}.

(** ** Vocabulary of the statements *)

(** No result of [getRandomDelay] underflows: each of the four exact
    results is zero or not below the normal doubles. *)
Definition noUnderflow (cfg : Config) (random : Q) : Prop :=
  let baseDelay := submissionDelay cfg in
  let variation := Double.mul baseDelay (randomDelayVariation cfg) in
  let centred := Double.sub random (1 # 2) in
  Double.normal (baseDelay * randomDelayVariation cfg)
  /\ Double.normal (random - (1 # 2))
  /\ Double.normal (centred * variation)
  /\ Double.normal (baseDelay + Double.mul centred variation).

(** Nobody asks to stop or pause, at any step. *)
Definition noStop (w : World) : Prop :=
  forall n, stopRequested (w n) = false.

(** No navigation step fails. *)
Definition noFault (w : World) : Prop :=
  forall n, fault (w n) = None.

(** The entries of [results], both lists together. *)
Definition finalized (e : Engine) : nat :=
  List.length (successful (results e)) + List.length (failed (results e)).

(** The entries of a list that belong to the record at [i]. *)
Definition entriesOf (i : nat) (entries : list Entry) : list Entry :=
  filter (fun entry => Nat.eqb (index entry) i) entries.

(** The messages kept in [results.failed]. *)
Definition retained (e : Engine) : list string :=
  flat_map (fun entry => match error entry with
                         | Some message => [message]
                         | None => []
                         end)
           (failed (results e)).

(** How many entries the record at [i] has, in both lists together. *)
Definition entryCount (i : nat) (e : Engine) : nat :=
  List.length (entriesOf i (successful (results e)))
  + List.length (entriesOf i (failed (results e))).

(** Every record before [currentIndex] has exactly one entry; the record at
    [currentIndex] and the later ones have none. *)
Definition oneEntryBeforeCursor (e : Engine) : Prop :=
  forall i,
    entryCount i e = if (i <? currentIndex e)%nat then 1%nat else 0%nat.

(** The three ways the retry loop of one record ends, with the errors
    [errs] it caught on the way:
    - the attempt after them succeeded: one entry in [successful];
    - they used up the retries: one entry in [failed], with the last of
      them;
    - neither: the lists and the index are as before, and either the loop
      saw that the engine no longer runs (or never had a turn to take), or
      the page refresh of [handleRetry] threw. *)
Definition loopEnds (w : World) (r : FormRecord) (k : Z) (m : Machine)
  (o : Outcome) (m' : Machine) (errs : list string) : Prop :=
  let e := engine m in
  let e' := engine m' in
  let i := currentIndex e in
  (o = Normal /\ currentIndex e' = S i /\
   successful (results e')
   = successful (results e)
     ++ [{| index := i; record := r; error := None;
            attempts := k + Z.of_nat (List.length errs) + 1 |}] /\
   failed (results e') = failed (results e))
  \/
  (o = Normal /\ currentIndex e' = S i /\
   successful (results e') = successful (results e) /\
   (k + Z.of_nat (List.length errs) = maxRetries (config e) + 1)%Z /\
   exists earlier message,
     errs = earlier ++ [message] /\
     failed (results e')
     = failed (results e)
       ++ [{| index := i; record := r; error := Some message;
              attempts := maxRetries (config e) + 1 |}])
  \/
  (currentIndex e' = i /\
   successful (results e') = successful (results e) /\
   failed (results e') = failed (results e) /\
   match o with
   | Normal =>
       isRunning e' = false
       \/ ((maxRetries (config e) < k)%Z /\ errs = [])
   | Throw message =>
       exists n, (tick m < n)%nat /\ fault (w n) = Some message
   end).

(** ** Concrete pages, worlds and reports *)

(** [SUBMISSION_DELAY=3] and [RANDOM_DELAY_VARIATION=0.4]. *)
Definition shortDelayConfig : Config :=
  {| url := url defaultConfig;
     submissionDelay := 3;
     maxRetries := maxRetries defaultConfig;
     randomDelayVariation := Double.rnd (4 # 10) |}.


(** A page on the form's URL with no banner of either kind and the submit
    control as before, whose inputs hold the given values. *)
Definition plainPage (values : list string) : PageState :=
  {| currentUrl := "https://kingsforms.online/nobphcephzone3";
     successIndicators := Got 0%nat;
     inputValues := Got values;
     errorElements := Got [];
     evaluateFault := handlesTypeError;
     submitButton := Got (Some {| disabled := false; displayNone := false |}) |}.


Definition three : list FormRecord :=
  [person "Ada" "Lovelace"; person "Alan" "Turing"; person "Grace" "Hopper"].

Definition five : list FormRecord :=
  three ++ [person "Edsger" "Dijkstra"; person "Barbara" "Liskov"].

(** The three-record scenario, step by step: navigation; record 1 accepted,
    fresh form, pacing wait; record 2 fails (a field is not found), page
    refresh, accepted, fresh form, pacing wait; record 3 fails, page
    refresh, fails again. *)
Definition threeRecordWorld : World :=
  script [quiet;
          quiet; quiet; quiet;
          missingField "answer-5" "Email"; quiet; quiet; quiet; quiet;
          missingField "answer-3" "Phone Number"; quiet;
          missingField "answer-3" "Phone Number"].

(** What a run reports at its end: the outcome and [getStatus()]. *)
Definition report (run : option (Outcome * Machine))
  : option (Outcome * Status) :=
  option_map (fun res => (fst res, getStatus (engine (snd res)))) run.

(** Five records; the first is accepted; the first attempt of the second
    fails (a field is not found), and the request to stop arrives during
    the page refresh that precedes its retry. *)
Definition stopMidRetryWorld : World :=
  script [quiet;
          quiet; quiet; quiet;
          missingField "answer-5" "Email"; withStop quiet].

(** The end of a run in detail: outcome, [currentIndex], the indices in the
    two result lists, the messages kept in [results.failed], and the errors
    raised on the way. *)
Definition ending (run : option (Outcome * Machine))
  : option (Outcome * nat * list nat * list nat * list string
            * list (nat * string)) :=
  option_map
    (fun res =>
       let e := engine (snd res) in
       (fst res, currentIndex e,
        map index (successful (results e)), map index (failed (results e)),
        retained e, raised (snd res)))
    run.

(** The first record is accepted, and the request to stop arrives during
    the pacing wait that follows. *)
Definition stopInWaitWorld : World :=
  script [quiet; quiet; withStop quiet].

(** The machine at the first turn of the loop of [startAutomation]. *)
Definition started (recs : list FormRecord) (cfg : Config) : Machine :=
  onEngine (beginRun recs 0) (boot cfg).

(** When a call returns, and whether the engine still runs then. *)
Definition returnsAt (run : option (Outcome * Machine)) : option (Q * bool) :=
  option_map (fun res => (Qred (now (snd res)), isRunning (engine (snd res))))
             run.

(** The machine that a call leaves. *)
Definition machineOf (run : option (Outcome * Machine)) (otherwise : Machine)
  : Machine :=
  match run with
  | Some (_, m') => m'
  | None => otherwise
  end.

(** A world in which every attempt fails: the field is never found. *)
Definition neverFilled : World :=
  fun _ => missingField "answer-5" "Email".

(** * The form, the CSV processor and the settings

    The definitions below embed the methods of the engine that fill the
    form, the constructor's reading of [MAX_RETRIES], and the class of
    [csvProcessor.js]:

    - strings are sequences of 8-bit characters, so [toLowerCase], [trim],
      [length] and the classes of the regular expressions are those of
      ASCII text;
    - an object whose properties are strings (a row of the CSV file, a
      record, [fieldMappings], [defaultValues]) is an association list in
      the order of [Object.entries]; [property] reads it and [assign]
      writes it;
    - the elements of the page are records of the properties that the code
      reads ([type], [value], [checked], the options of a select element);
      a click toggles a checkbox and checks a radio button;
    - a regular expression is matched by derivatives; [test_Matches] shows
      that this decides the usual meaning of the expression;
    - a thrown [Error] is a [Fault] with its message; [logger] calls are
      left out. *)

(** ** Vocabulary of the further properties *)

(** The messages of the errors that the driver throws at
    [waitForSubmissionSuccess] on a page: those of the queries that fail,
    and that of [page.evaluate] on the error elements. *)
Definition driverFaults (pg : PageState) : list string :=
  (match successIndicators pg with Fault e => [e] | Got _ => [] end)
  ++ (match inputValues pg with Fault e => [e] | Got _ => [] end)
  ++ (match errorElements pg with Fault e => [e] | Got _ => [] end)
  ++ [evaluateFault pg]
  ++ (match submitButton pg with Fault e => [e] | Got _ => [] end).

(** In a run that started at index [s], every record from [s] up to
    [currentIndex] (excluded) has exactly one entry, and no other record has
    any. *)
Definition oneEntryWithin (s : nat) (e : Engine) : Prop :=
  forall i,
    entryCount i e
    = if (s <=? i)%nat && (i <? currentIndex e)%nat then 1%nat else 0%nat.

(** The failed attempts that the entries of [results] account for: all but
    the last attempt of a record that succeeded, every attempt of a record
    that exhausted its retries. *)
Definition accountedAttempts (e : Engine) : Z :=
  fold_right (fun entry acc => (attempts entry - 1 + acc)%Z) 0%Z
             (successful (results e))
  + fold_right (fun entry acc => (attempts entry + acc)%Z) 0%Z
               (failed (results e)).

(** What every entry of [results] has to say about its record. *)
Definition successEntryOk (e : Engine) (entry : Entry) : Prop :=
  nth_error (records e) (index entry) = Some (record entry)
  /\ error entry = None
  /\ (1 <= attempts entry <= maxRetries (config e) + 1)%Z.

Definition failureEntryOk (e : Engine) (entry : Entry) : Prop :=
  nth_error (records e) (index entry) = Some (record entry)
  /\ (exists message, error entry = Some message)
  /\ attempts entry = (maxRetries (config e) + 1)%Z.

(** The entries of a list are in increasing order of index. *)
Definition ascending (entries : list Entry) : Prop :=
  StronglySorted (fun a b => (index a < index b)%nat) entries.

(** The entries of both lists are well formed, in increasing order of
    index, and about records before [currentIndex]. *)
Definition resultsOk (e : Engine) : Prop :=
  Forall (successEntryOk e) (successful (results e))
  /\ Forall (failureEntryOk e) (failed (results e))
  /\ ascending (successful (results e))
  /\ ascending (failed (results e))
  /\ Forall (fun entry => (index entry < currentIndex e)%nat)
            (successful (results e) ++ failed (results e)).

(** ** Filling the form *)

(** [s.toLowerCase()], for the ASCII letters. *)
Definition lowerAscii (c : ascii) : ascii :=
  let n := nat_of_ascii c in
  if ((65 <=? n) && (n <=? 90))%nat then ascii_of_nat (n + 32) else c.

Fixpoint toLowerCase (s : string) : string :=
  match s with
  | EmptyString => EmptyString
  | String c rest => String (lowerAscii c) (toLowerCase rest)
  end.

(** [obj[key]] on an object whose properties are strings; [None] is
    [undefined]. *)
Fixpoint property (obj : list (string * string)) (key : string)
  : option string :=
  match obj with
  | [] => None
  | (name, value) :: more =>
      if String.eqb name key then Some value else property more key
  end.

(** [this.fieldMappings], in the order of [Object.entries]. *)
Definition fieldMappings : list (string * string) :=
  [("Title", "answer-0"); ("First Name", "answer-1");
   ("Last Name", "answer-2"); ("Phone Number", "answer-3");
   ("Kingschat Handle", "answer-4"); ("Email", "answer-5");
   ("Birthday", "answer-6"); ("Marital Status", "answer-7");
   ("Gender", "answer-8"); ("Age", "answer-9"); ("Group", "answer-10");
   ("Church Name", "answer-11"); ("Cell Name", "answer-12")]%string.

(** [this.defaultValues] *)
Definition defaultValues : list (string * string) :=
  [("Phone Number", "0000000000"); ("Kingschat Handle", "@test");
   ("Email", "test@test.com"); ("Birthday", "1st January");
   ("Marital Status", "Single"); ("Gender", "Male");
   ("Age", "Adult ( 20 years and above)"); ("Group", "CE LIMITLESS GROUP");
   ("Church Name", "Test Church"); ("Cell Name", "Test Cell");
   ("Sub-Teams", "USHERS")]%string.

(** [record[csvField] || this.defaultValues[csvField]] *)
Definition fieldValue (r : FormRecord) (csvField : string) : option string :=
  match property r csvField with
  | Some value =>
      if JsString.truthy value then Some value
      else property defaultValues csvField
  | None => property defaultValues csvField
  end.

(** The calls [fillField(formId, value, csvField)] that the loop of
    [fillForm] makes, in order: one for every mapped field whose value is
    truthy. *)
Definition fillFormCalls (r : FormRecord) : list (string * string * string) :=
  flat_map
    (fun mapping =>
       match fieldValue r (fst mapping) with
       | Some value =>
           if JsString.truthy value
           then [(snd mapping, value, fst mapping)]
           else []
       | None => []
       end)
    fieldMappings.

(** An option of a select element. *)
Record SelectOption := {
  optionValue : string;
  optionText : string
}.

(** Any other element: its [type], [value] and [checked] properties. *)
Record Input := {
  inputType : string;
  inputValue : string;
  inputChecked : bool
}.

(** An element as [fillField] sees it: [tagName === "SELECT"] with its
    options and the value selected through the driver so far, or anything
    else. *)
Inductive Element :=
| SelectEl (options : list SelectOption) (chosen : option string)
| InputEl (input : Input).

(** The options as [fillSelectField] reads them: the text in lower case. *)
Definition readOption (o : SelectOption) : SelectOption :=
  {| optionValue := optionValue o; optionText := toLowerCase (optionText o) |}.

(** [options.find((o) => o.text.includes(word))] *)
Definition findText (word : string) (options : list SelectOption)
  : option SelectOption :=
  find (fun o => JsString.includes word (optionText o)) options.

(** [a || b] on two options that may be [undefined]. *)
Definition orElse {A : Type} (a b : option A) : option A :=
  match a with
  | Some _ => a
  | None => b
  end.

(** [fillSelectField(element, value, fieldName)]: the value passed to
    [element.select], or the [TypeError] of reading [fallbackOption.value]
    when the select has no option at all. *)
Definition fillSelectField (opts : list SelectOption) (value fieldName : string)
  : Query string :=
  let options := map readOption opts in
  let matchingOption :=
    find (fun option =>
            JsString.includes (toLowerCase value) (optionText option)
            || JsString.includes (toLowerCase value)
                                 (toLowerCase (optionValue option)))
         options in
  match matchingOption with
  | Some option => Got (optionValue option)
  | None =>
      let first := hd_error options in
      let fallbackOption :=
        if String.eqb fieldName "Marital Status"
        then orElse (findText "others" options) first
        else if String.eqb fieldName "Age"
        then orElse (findText "adult" options) first
        else if String.eqb fieldName "Group"
        then orElse (findText "limitless" options) first
        else first in
      match fallbackOption with
      | Some option => Got (optionValue option)
      | None =>
          Fault "Cannot read properties of undefined (reading 'value')"
      end
  end.

(** What a click does to an element: it toggles a checkbox and checks a radio
    button (the other buttons of its group are not part of the model). *)
Definition click (i : Input) : Input :=
  if String.eqb (inputType i) "checkbox"
  then {| inputType := inputType i; inputValue := inputValue i;
          inputChecked := negb (inputChecked i) |}
  else if String.eqb (inputType i) "radio"
  then {| inputType := inputType i; inputValue := inputValue i;
          inputChecked := true |}
  else i.

(** [["yes", "true", "1"].includes(value.toLowerCase())] *)
Definition shouldCheck (value : string) : bool :=
  existsb (String.eqb (toLowerCase value)) ["yes"; "true"; "1"]%string.

(** [fillCheckboxField(element, value, fieldName)] *)
Definition fillCheckboxField (i : Input) (value : string) : Input :=
  if Bool.eqb (shouldCheck value) (inputChecked i) then i else click i.

(** [fillTextField(element, value, fieldName)]: the field is emptied, then
    the value is typed into it. *)
Definition fillTextField (i : Input) (value : string) : Input :=
  {| inputType := inputType i; inputValue := value;
     inputChecked := inputChecked i |}.

(** [fillField(fieldId, value, fieldName)] on the element that
    [page.$('[name=fieldId]')] found, if any. *)
Definition fillField (found : option Element) (fieldId value fieldName : string)
  : Query Element :=
  match found with
  | None =>
      Fault ("Field " ++ fieldId ++ " (" ++ fieldName ++ ") not found")%string
  | Some (SelectEl opts chosen) =>
      match fillSelectField opts value fieldName with
      | Got selected => Got (SelectEl opts (Some selected))
      | Fault message => Fault message
      end
  | Some (InputEl i) =>
      if String.eqb (inputType i) "checkbox" || String.eqb (inputType i) "radio"
      then Got (InputEl (fillCheckboxField i value))
      else Got (InputEl (fillTextField i value))
  end.

(** [subTeamsValue.split(",").map((team) => team.trim().toLowerCase())] *)
Definition teamsOf (subTeamsValue : string) : list string :=
  map (fun team => toLowerCase (JsString.trim team))
      (JsString.split "," subTeamsValue).

(** [teams.some((team) => checkboxValue.includes(team)
                          || team.includes(checkboxValue))] *)
Definition matchesTeam (teams : list string) (checkboxValue : string) : bool :=
  existsb (fun team => JsString.includes team checkboxValue
                       || JsString.includes checkboxValue team)
          teams.

(** [fillSubTeams(subTeamsValue)] on the inputs that the selector of the
    sub-team boxes matches. *)
Definition fillSubTeams (subTeamsValue : string) (checkboxes : list Input)
  : list Input :=
  if JsString.truthy subTeamsValue then
    map (fun checkbox =>
           if Bool.eqb (matchesTeam (teamsOf subTeamsValue)
                                    (toLowerCase (inputValue checkbox)))
                       (inputChecked checkbox)
           then checkbox
           else click checkbox)
        checkboxes
  else checkboxes.

(** [record["Sub-Teams"] || this.defaultValues["Sub-Teams"]] *)
Definition subTeamsOf (r : FormRecord) : option string :=
  fieldValue r "Sub-Teams".

(** ** The CSV processor *)

(** Regular expressions as the validators use them: anchored at both ends,
    so that [regex.test(s)] asks whether the whole of [s] matches. Matching
    is by derivatives. *)
Module Regex.

Inductive t :=
| Eps
| Class (member : ascii -> bool)
| Cat (r1 r2 : t)
| Alt (r1 r2 : t)
| Star (r : t).

(** [r+], [r?] and [r{n}] *)
Definition plus (r : t) : t := Cat r (Star r).
Definition opt (r : t) : t := Alt r Eps.
Fixpoint times (n : nat) (r : t) : t :=
  match n with
  | O => Eps
  | S n' => Cat r (times n' r)
  end.

(** Does [r] match the empty string? *)
Fixpoint nullable (r : t) : bool :=
  match r with
  | Eps => true
  | Class _ => false
  | Cat r1 r2 => nullable r1 && nullable r2
  | Alt r1 r2 => nullable r1 || nullable r2
  | Star _ => true
  end.

(** What is left of [r] after the character [c]; [None] when nothing can
    match. *)
Fixpoint derive (c : ascii) (r : t) : option t :=
  match r with
  | Eps => None
  | Class member => if member c then Some Eps else None
  | Cat r1 r2 =>
      let left := option_map (fun d => Cat d r2) (derive c r1) in
      if nullable r1 then
        match left, derive c r2 with
        | Some a, Some b => Some (Alt a b)
        | Some a, None => Some a
        | None, other => other
        end
      else left
  | Alt r1 r2 =>
      match derive c r1, derive c r2 with
      | Some a, Some b => Some (Alt a b)
      | Some a, None => Some a
      | None, other => other
      end
  | Star r1 => option_map (fun d => Cat d (Star r1)) (derive c r1)
  end.

(** [/^r$/.test(s)] *)
Fixpoint test (r : t) (s : string) : bool :=
  match s with
  | EmptyString => nullable r
  | String c rest =>
      match derive c r with
      | Some d => test d rest
      | None => false
      end
  end.

End Regex.

(** [\d], [[a-zA-Z]] and single characters. *)
Definition isDigit (c : ascii) : bool :=
  let n := nat_of_ascii c in ((48 <=? n) && (n <=? 57))%nat.

Definition isLetter (c : ascii) : bool :=
  let n := nat_of_ascii c in
  (((65 <=? n) && (n <=? 90)) || ((97 <=? n) && (n <=? 122)))%nat.

Definition isChar (x : ascii) (c : ascii) : bool := Ascii.eqb c x.

(** [/^[^\s@]+@[^\s@]+\.[^\s@]+$/] *)
Definition emailRegex : Regex.t :=
  let word := Regex.plus
                (Regex.Class (fun c => negb (JsString.isSpace c || isChar "@" c))) in
  Regex.Cat word
    (Regex.Cat (Regex.Class (isChar "@"))
       (Regex.Cat word (Regex.Cat (Regex.Class (isChar ".")) word))).

(** [/^[a-zA-Z\s'-]+$/] *)
Definition nameRegex : Regex.t :=
  Regex.plus
    (Regex.Class (fun c => isLetter c || JsString.isSpace c
                           || isChar "'" c || isChar "-" c)).

(** [/^(\d{1,2})[\/\-\s](\d{1,2}|[A-Za-z]+)[\/\-\s](\d{4})$/] *)
Definition birthdayRegex : Regex.t :=
  let digit := Regex.Class isDigit in
  let oneOrTwo := Regex.Cat digit (Regex.opt digit) in
  let separator :=
    Regex.Class (fun c => isChar "/" c || isChar "-" c || JsString.isSpace c) in
  Regex.Cat oneOrTwo
    (Regex.Cat separator
       (Regex.Cat (Regex.Alt oneOrTwo (Regex.plus (Regex.Class isLetter)))
          (Regex.Cat separator (Regex.times 4 digit)))).

(** [s.replace(/\D/g, '')]: the digits of [s]. *)
Fixpoint digitsOf (s : string) : string :=
  match s with
  | EmptyString => EmptyString
  | String c rest => if isDigit c then String c (digitsOf rest) else digitsOf rest
  end.

(** [xs.includes(x)] on an array of strings. *)
Definition arrayIncludes (xs : list string) (x : string) : bool :=
  existsb (String.eqb x) xs.

(** [valid.some((v) => s.toLowerCase().includes(v.toLowerCase()))] *)
Definition mentionsOneOf (valid : list string) (s : string) : bool :=
  existsb (fun v => JsString.includes (toLowerCase v) (toLowerCase s)) valid.

Definition validateEmail (email field : string) : Query string :=
  if Regex.test emailRegex email then Got (toLowerCase email)
  else Fault ("Invalid email format: " ++ email)%string.

Definition validatePhoneNumber (phone field : string) : Query string :=
  let cleanPhone := digitsOf phone in
  if ((String.length cleanPhone <? 10) || (15 <? String.length cleanPhone))%nat
  then Fault ("Invalid phone number format: " ++ phone)%string
  else if negb (String.prefix "234" cleanPhone)
          && (String.length cleanPhone =? 10)%nat
  then Got ("+234" ++ cleanPhone)%string
  else if negb (String.prefix "234" cleanPhone)
          && negb (String.prefix "+" cleanPhone)
  then Got ("+234" ++ cleanPhone)%string
  else Got (if String.prefix "+" cleanPhone then cleanPhone
            else "+" ++ cleanPhone)%string.

Definition validateName (name field : string) : Query string :=
  if (String.length name <? 2)%nat
  then Fault (field ++ " must be at least 2 characters long")%string
  else if negb (Regex.test nameRegex name)
  then Fault (field ++ " contains invalid characters")%string
  else Got name.

(** An unusual title is logged and kept. *)
Definition validateTitle (title field : string) : Query string := Got title.

Definition validateBirthday (birthday field : string) : Query string :=
  if Regex.test birthdayRegex birthday then Got birthday
  else Fault ("Invalid birthday format: " ++ birthday
              ++ ". Use DD/MM/YYYY or similar")%string.

Definition validateMaritalStatus (status field : string) : Query string :=
  if mentionsOneOf ["Single"; "Married"; "Divorced"; "Widowed"; "Separated"]%string
                   status
  then Got status
  else Fault ("Invalid marital status: " ++ status)%string.

Definition validateGender (gender field : string) : Query string :=
  if mentionsOneOf ["Male"; "Female"; "Other"; "Prefer not to say"]%string gender
  then Got gender
  else Fault ("Invalid gender: " ++ gender)%string.

(** An unusual age category is logged and kept. *)
Definition validateAge (age field : string) : Query string := Got age.

Definition requiredFields : list string :=
  ["Title"; "First Name"; "Last Name"; "Phone Number"; "Email";
   "Marital Status"; "Group"; "Church Name"]%string.

Definition optionalFields : list string :=
  ["Kingschat Handle"; "Birthday"; "Age"; "Sub-Teams"]%string.

(** [this.fieldValidators[field]] *)
Definition fieldValidators (field : string)
  : option (string -> string -> Query string) :=
  if String.eqb field "Email" then Some validateEmail
  else if String.eqb field "Phone Number" then Some validatePhoneNumber
  else if String.eqb field "First Name" then Some validateName
  else if String.eqb field "Last Name" then Some validateName
  else if String.eqb field "Title" then Some validateTitle
  else if String.eqb field "Birthday" then Some validateBirthday
  else if String.eqb field "Marital Status" then Some validateMaritalStatus
  else if String.eqb field "Gender" then Some validateGender
  else if String.eqb field "Age" then Some validateAge
  else None.

(** [obj[key] = value]: the property keeps its place when it exists, and
    comes last when it is new. *)
Fixpoint assign (obj : list (string * string)) (key value : string)
  : list (string * string) :=
  match obj with
  | [] => [(key, value)]
  | (name, old) :: more =>
      if String.eqb name key then (name, value) :: more
      else (name, old) :: assign more key value
  end.

(** The first lines of [validateRecord]: a column "Name of Cell" stands for
    "Cell Name" when that one is missing. *)
Definition normalizeHeaders (data : list (string * string))
  : list (string * string) :=
  match property data "Name of Cell", property data "Cell Name" with
  | Some cell, None => assign data "Cell Name" cell
  | _, _ => data
  end.

(** [!data[field] || data[field].trim() === ''] *)
Definition missing (data : list (string * string)) (field : string) : bool :=
  match property data field with
  | None => true
  | Some value =>
      negb (JsString.truthy value)
      || String.eqb (JsString.trim value) EmptyString
  end.

(** The second loop of [validateRecord], over [Object.entries(data)]. *)
Fixpoint cleanFields (entries : list (string * string)) (record : FormRecord)
  : Query FormRecord :=
  match entries with
  | [] => Got record
  | (field, value) :: more =>
      if arrayIncludes requiredFields field || arrayIncludes optionalFields field
      then
        let trimmedValue := JsString.trim value in
        if arrayIncludes requiredFields field
           || negb (String.eqb trimmedValue EmptyString)
        then
          match fieldValidators field with
          | Some validator =>
              match validator trimmedValue field with
              | Got cleaned => cleanFields more (assign record field cleaned)
              | Fault message => Fault message
              end
          | None => cleanFields more (assign record field trimmedValue)
          end
        else cleanFields more record
      else cleanFields more record
  end.

(** [validateRecord(data, rowNumber)] *)
Definition validateRecord (data : list (string * string)) : Query FormRecord :=
  let data := normalizeHeaders data in
  match find (missing data) requiredFields with
  | Some field => Fault ("Missing required field: " ++ field)%string
  | None => cleanFields data []
  end.

(** Every character of a string passes a test. *)
Fixpoint allChars (p : ascii -> bool) (s : string) : bool :=
  match s with
  | EmptyString => true
  | String c rest => p c && allChars p rest
  end.

(** The fields that [validateRecord] copies. *)
Definition listed (field : string) : bool :=
  arrayIncludes requiredFields field || arrayIncludes optionalFields field.

(** What it means for a string to match a regular expression. *)
Inductive Matches : Regex.t -> string -> Prop :=
| MatchEps : Matches Regex.Eps EmptyString
| MatchClass member c :
    member c = true -> Matches (Regex.Class member) (String c EmptyString)
| MatchCat r1 r2 s1 s2 :
    Matches r1 s1 -> Matches r2 s2 -> Matches (Regex.Cat r1 r2) (s1 ++ s2)
| MatchAltL r1 r2 s : Matches r1 s -> Matches (Regex.Alt r1 r2) s
| MatchAltR r1 r2 s : Matches r2 s -> Matches (Regex.Alt r1 r2) s
| MatchStarNone r : Matches (Regex.Star r) EmptyString
| MatchStarMore r s1 s2 :
    Matches r s1 -> Matches (Regex.Star r) s2 ->
    Matches (Regex.Star r) (s1 ++ s2).

(** The separators of the birthday pattern: [[\/\-\s]]. *)
Definition isDateSeparator (c : ascii) : bool :=
  isChar "/" c || isChar "-" c || JsString.isSpace c.

(** ** Settings from the environment *)

(** The value of a character as a digit in the given radix, if it is one. *)
Definition digitOf (radix : Z) (c : ascii) : option Z :=
  let n := Z.of_nat (nat_of_ascii c) in
  let value :=
    if ((48 <=? n) && (n <=? 57))%Z then Some (n - 48)%Z
    else if ((97 <=? n) && (n <=? 122))%Z then Some (n - 87)%Z
    else if ((65 <=? n) && (n <=? 90))%Z then Some (n - 55)%Z
    else None in
  match value with
  | Some d => if (d <? radix)%Z then Some d else None
  | None => None
  end.

(** The number that the longest prefix of digits denotes; [acc] is what has
    been read so far, [None] when nothing has. *)
Fixpoint readDigits (radix : Z) (s : string) (acc : option Z) : option Z :=
  match s with
  | EmptyString => acc
  | String c rest =>
      match digitOf radix c with
      | Some d =>
          readDigits radix rest
            (Some (radix * match acc with Some a => a | None => 0 end + d)%Z)
      | None => acc
      end
  end.

(** [parseInt(s)] with no radix: leading white space, a sign, "0x" or "0X"
    for base 16, then digits; [None] is [NaN]. *)
Definition parseInt (s : string) : option Z :=
  let s := JsString.trimStart s in
  let negative :=
    match s with String c _ => isChar "-" c | EmptyString => false end in
  let s :=
    match s with
    | String c rest => if isChar "-" c || isChar "+" c then rest else s
    | EmptyString => s
    end in
  let hex :=
    match s with
    | String c (String x _) => isChar "0" c && (isChar "x" x || isChar "X" x)
    | _ => false
    end in
  let s :=
    match s with
    | String _ (String _ rest) => if hex then rest else s
    | _ => s
    end in
  match readDigits (if hex then 16 else 10)%Z s None with
  | Some value => Some (if negative then - value else value)%Z
  | None => None
  end.

(** [parseInt(process.env.NAME) || fallback]: a variable that is not set is
    [undefined], which [parseInt] reads as [NaN]; [NaN] and 0 are falsy. *)
Definition envInt (variable : option string) (fallback : Z) : Z :=
  match variable with
  | None => fallback
  | Some text =>
      match parseInt text with
      | Some value => if (value =? 0)%Z then fallback else value
      | None => fallback
      end
  end.

(** [maxRetries: parseInt(process.env.MAX_RETRIES) || 3]. *)
Definition envMaxRetries (MAX_RETRIES : option string) : Z :=
  envInt MAX_RETRIES 3.


(** ** Reading the rows of a CSV file *)

(** What [processCSV] resolves to. *)
Record CsvResult := {
  csvRecords : list FormRecord;
  csvErrors : list (nat * string * list (string * string));
  totalRows : nat;
  validRecords : nat;
  invalidRecords : nat
}.

(** The handlers of [processCSV] over the rows that the parser emits: "data"
    for each row, then "end". A row that fails is kept with its number and
    with the headers as [validateRecord] normalized them. *)
Fixpoint processRows (rows : list (list (string * string))) (rowNumber : nat)
  (results : list FormRecord)
  (errors : list (nat * string * list (string * string))) : CsvResult :=
  match rows with
  | [] =>
      {| csvRecords := results; csvErrors := errors; totalRows := rowNumber;
         validRecords := List.length results;
         invalidRecords := List.length errors |}
  | data :: more =>
      let rowNumber := S rowNumber in
      match validateRecord data with
      | Got validatedRecord =>
          processRows more rowNumber (results ++ [validatedRecord]) errors
      | Fault message =>
          processRows more rowNumber results
            (errors ++ [(rowNumber, message, normalizeHeaders data)])
      end
  end.

Definition processCSV (rows : list (list (string * string))) : CsvResult :=
  processRows rows 0 [] [].

(** ** Inputs for the further statements *)

(** [generateSampleCSV()] *)
Definition generateSampleCSV : list (list (string * string)) :=
  [[("Title", "Pastor"); ("First Name", "John"); ("Last Name", "Doe");
    ("Phone Number", "08012345678"); ("Kingschat Handle", "@johndoe");
    ("Email", "john@example.com"); ("Birthday", "15th March 1985");
    ("Marital Status", "Married"); ("Gender", "Male");
    ("Age", "Adult ( 20 years and above)"); ("Group", "CE LIMITLESS GROUP");
    ("Church Name", "CE Port Harcourt"); ("Cell Name", "Victory Cell");
    ("Sub-Teams", "Media, Ushering")]]%string.

(** The sample row with its birthday written as a date. *)
Definition datedRow : list (string * string) :=
  assign (hd [] generateSampleCSV) "Birthday" "15/03/1985".

(** The record that a validation gives. *)
Definition recordOf (q : Query FormRecord) : FormRecord :=
  match q with
  | Got record => record
  | Fault _ => []
  end.

(** A navigation step that fails with the given message. *)
Definition failing (message : string) : Event :=
  {| stopRequested := false;
     took := 1000;
     fault := Some message;
     attempt := attempt quiet;
     random := 1 # 2 |}.

(** The form cannot be reached. *)
Definition navigationFailsWorld : World :=
  script [failing "net::ERR_CONNECTION_REFUSED"].

(** The first attempt fails (a field is not found), and the page refresh
    before the retry fails. *)
Definition refreshFailsWorld : World :=
  script [missingField "answer-5" "Email"; failing "Navigation timeout"].

(** The machine at the end of the three-record scenario. *)
Definition threeRecordEnd : Machine :=
  machineOf (startAutomation 3 threeRecordWorld three 0
               (boot (withMaxRetries 1 defaultConfig)))
            (boot defaultConfig).

(** The options of a select element, and the sub-team boxes of a form. *)
Definition maritalOptions : list SelectOption :=
  [{| optionValue := EmptyString; optionText := "Choose one" |};
   {| optionValue := "single"; optionText := "Single" |};
   {| optionValue := "unmarried"; optionText := "Unmarried" |};
   {| optionValue := "married"; optionText := "Married" |}]%string.

Definition teamBoxes : list Input :=
  [{| inputType := "checkbox"; inputValue := "Media Team";
      inputChecked := false |};
   {| inputType := "checkbox"; inputValue := "Ushering";
      inputChecked := true |};
   {| inputType := "checkbox"; inputValue := "Choir";
      inputChecked := true |}]%string.

(** The default configuration with a slash at the end of the URL. *)
Definition slashConfig : Config :=
  {| url := "https://kingsforms.online/nobphcephzone3/";
     submissionDelay := submissionDelay defaultConfig;
     maxRetries := maxRetries defaultConfig;
     randomDelayVariation := randomDelayVariation defaultConfig |}.

(** * Properties *)

(** ** Strings *)

Lemma prefix_app (p t : string) : String.prefix p (p ++ t)%string = true.
Proof.
  induction p as [|c p IH]; simpl.
  - now destruct t.
  - destruct (ascii_dec c c) as [_|ne]; [exact IH | now elim ne].
Qed.

Lemma includes_prefix (needle hay : string) :
  String.prefix needle hay = true -> JsString.includes needle hay = true.
Proof. destruct hay; simpl; intros ->; reflexivity. Qed.

Lemma includes_app (p t : string) :
  JsString.includes p (p ++ t)%string = true.
Proof. apply includes_prefix, prefix_app. Qed.

(** ** Numbers *)

Lemma pow2_pos (e : Z) : 0 < Double.pow2 e.
Proof. apply Qpower_0_lt. reflexivity. Qed.

Lemma pow2_plus (a b : Z) :
  Double.pow2 (a + b) == Double.pow2 a * Double.pow2 b.
Proof. apply Qpower_plus. discriminate. Qed.

Lemma pow2_nat (n : Z) : (0 <= n)%Z -> Double.pow2 n == inject_Z (2 ^ n).
Proof. intros H. unfold Double.pow2. now rewrite Zpower_Qpower. Qed.

Lemma pow2_lt_inv (a b : Z) : Double.pow2 a < Double.pow2 b -> (a < b)%Z.
Proof.
  intros H. apply (Qpower_lt_compat_l_inv 2); [exact H|reflexivity].
Qed.

(** The nearest integer is at most a half away. *)
Lemma nearestEven_error (x : Q) :
  Qabs (inject_Z (Double.nearestEven x) - x) <= 1 # 2.
Proof.
  unfold Double.nearestEven.
  pose proof (Qfloor_le x) as L. pose proof (Qlt_floor x) as U.
  rewrite inject_Z_plus in U. change (inject_Z 1) with 1 in U.
  apply Qabs_Qle_condition.
  destruct (Qcompare_spec (x - inject_Z (Qfloor x)) (1 # 2)) as [E|E|E].
  - destruct (Z.even (Qfloor x));
      [|rewrite inject_Z_plus; change (inject_Z 1) with 1]; lra.
  - lra.
  - rewrite inject_Z_plus. change (inject_Z 1) with 1. lra.
Qed.

(** [ilog2] is the integer part of the binary logarithm. *)
Lemma ilog2_spec (x : Q) :
  0 < x ->
  Double.pow2 (Double.ilog2 x) <= x /\ x < Double.pow2 (Double.ilog2 x + 1).
Proof.
  intros Hx. destruct x as [n d]. unfold Double.ilog2. cbn [Qnum Qden].
  assert (Hn : (0 < n)%Z) by (unfold Qlt in Hx; cbn in Hx; lia).
  set (ln := Z.log2 n). set (ld := Z.log2 (Zpos d)).
  pose proof (Z.log2_spec n Hn) as [Ln Un]. fold ln in Ln, Un.
  pose proof (Z.log2_spec (Zpos d) (Pos2Z.is_pos d)) as [Ld Ud].
  fold ld in Ld, Ud.
  assert (Pn : (0 <= ln)%Z) by apply Z.log2_nonneg.
  assert (Pd : (0 <= ld)%Z) by apply Z.log2_nonneg.
  assert (X : n # d == inject_Z n / inject_Z (Zpos d)) by apply Qmake_Qdiv.
  assert (Dpos : 0 < inject_Z (Zpos d)) by reflexivity.
  assert (Lo : Double.pow2 (ln - ld - 1) < n # d).
  { rewrite X. apply Qlt_shift_div_l; [exact Dpos|].
    apply Qlt_le_trans with (Double.pow2 (ln - ld - 1) * Double.pow2 (ld + 1)).
    - apply Qmult_lt_l; [apply pow2_pos|].
      rewrite pow2_nat by lia. rewrite <- Zlt_Qlt.
      replace (ld + 1)%Z with (Z.succ ld) by lia. exact Ud.
    - rewrite <- pow2_plus. replace (ln - ld - 1 + (ld + 1))%Z with ln by lia.
      rewrite pow2_nat by lia. rewrite <- Zle_Qle. exact Ln. }
  assert (Up : n # d < Double.pow2 (ln - ld + 1)).
  { rewrite X. apply Qlt_shift_div_r; [exact Dpos|].
    apply Qlt_le_trans with (Double.pow2 (ln - ld + 1) * Double.pow2 ld).
    - rewrite <- pow2_plus. replace (ln - ld + 1 + ld)%Z with (Z.succ ln) by lia.
      rewrite pow2_nat by lia. rewrite <- Zlt_Qlt. exact Un.
    - apply Qmult_le_l; [apply pow2_pos|].
      rewrite pow2_nat by lia. rewrite <- Zle_Qle. exact Ld. }
  destruct (Qle_bool (Double.pow2 (ln - ld)) (n # d)) eqn:T.
  - apply Qle_bool_iff in T. split; assumption.
  - assert (T' : n # d < Double.pow2 (ln - ld)).
    { apply Qnot_le_lt. intros C. apply Qle_bool_iff in C. congruence. }
    replace (ln - ld - 1 + 1)%Z with (ln - ld)%Z by lia.
    split; [apply Qlt_le_weak; exact Lo | exact T'].
Qed.

Lemma rnd_zero (x : Q) : x == 0 -> Double.rnd x = 0.
Proof.
  intros H. unfold Double.rnd.
  now rewrite (proj2 (Qeq_bool_iff x 0) H).
Qed.

(** The rounding of a number that does not underflow has a relative error
    of [unit] at most. *)
Lemma rnd_error (x : Q) :
  Double.normal x ->
  Qabs (Double.rnd x - x) <= Double.unit * Qabs x.
Proof.
  intros [Z|N].
  - rewrite (rnd_zero x Z). rewrite Z. cbn. discriminate.
  - assert (P : 0 < Qabs x).
    { apply Qlt_le_trans with (Double.pow2 (-1022)); [apply pow2_pos|exact N]. }
    assert (NZ : ~ x == 0).
    { intros Z. rewrite Z in P. now apply Qlt_irrefl in P. }
    unfold Double.rnd.
    destruct (Qeq_bool x 0) eqn:E; [apply Qeq_bool_iff in E; contradiction|].
    rewrite Qred_correct.
    destruct (ilog2_spec (Qabs x) P) as [Lo Up].
    set (il := Double.ilog2 (Qabs x)) in *.
    assert (Hil : (-1022 <= il)%Z).
    { assert (Double.pow2 (-1022) < Double.pow2 (il + 1))
        by (apply Qle_lt_trans with (Qabs x); assumption).
      apply pow2_lt_inv in H. lia. }
    unfold Double.exponent. fold il.
    rewrite Z.max_l by lia.
    set (e := (il - 52)%Z).
    pose proof (pow2_pos e) as Pe.
    pose proof (nearestEven_error (x / Double.pow2 e)) as Err.
    set (k := inject_Z (Double.nearestEven (x / Double.pow2 e))) in *.
    assert (S : k * Double.pow2 e - x == (k - x / Double.pow2 e) * Double.pow2 e).
    { field. intros C. rewrite C in Pe. now apply Qlt_irrefl in Pe. }
    rewrite S, Qabs_Qmult, (Qabs_pos _ (Qlt_le_weak _ _ Pe)).
    apply Qle_trans with ((1 # 2) * Double.pow2 e).
    + apply Qmult_le_compat_r; [exact Err|apply Qlt_le_weak; exact Pe].
    + unfold Double.unit.
      apply Qle_trans with (Double.pow2 (-53) * Double.pow2 il).
      * rewrite <- pow2_plus. unfold e. clearbody il.
        replace (il - 52)%Z with (1 + (-53 + il))%Z by lia.
        rewrite (pow2_plus 1). change (Double.pow2 1) with 2. lra.
      * apply Qmult_le_l; [apply pow2_pos|exact Lo].
Qed.

(** A rounding moves a number by its share of [unit] at most. *)
Lemma rnd_within (x : Q) :
  Double.normal x ->
  x - (1 # 9007199254740992) * Qabs x <= Double.rnd x
  <= x + (1 # 9007199254740992) * Qabs x.
Proof.
  intros N. pose proof (rnd_error x N) as E.
  change Double.unit with (1 # 9007199254740992) in E.
  apply Qabs_Qle_condition in E. lra.
Qed.




(** ** What a step leaves alone *)

Lemma await_config w d m : config (engine (await w d m)) = config (engine m).
Proof. unfold await; simpl; now destruct (stopRequested _). Qed.

Lemma await_currentIndex w d m :
  currentIndex (engine (await w d m)) = currentIndex (engine m).
Proof. unfold await; simpl; now destruct (stopRequested _). Qed.

Lemma await_records w d m : records (engine (await w d m)) = records (engine m).
Proof. unfold await; simpl; now destruct (stopRequested _). Qed.

Lemma await_results w d m : results (engine (await w d m)) = results (engine m).
Proof. unfold await; simpl; now destruct (stopRequested _). Qed.

Lemma await_isRunning w d m :
  isRunning (engine (await w d m))
  = isRunning (engine m) && negb (stopRequested (w (tick m))).
Proof.
  unfold await; simpl; destruct (stopRequested _); simpl;
    [now rewrite andb_false_r | now rewrite andb_true_r].
Qed.

Lemma await_tick w d m : tick (await w d m) = S (tick m).
Proof. reflexivity. Qed.

Lemma await_raised w d m : raised (await w d m) = raised m.
Proof. reflexivity. Qed.

Lemma freshForm_await w m : freshForm w m = await w (took (w (tick m))) m.
Proof. unfold freshForm, driverStep; now destruct (fault _). Qed.

Lemma handleRetry_machine w m :
  snd (handleRetry w m) = await w (took (w (tick m))) m.
Proof. unfold handleRetry, driverStep; now destruct (fault _). Qed.

Lemma handleRetry_outcome w m :
  fst (handleRetry w m)
  = match fault (w (tick m)) with Some e => Throw e | None => Normal end.
Proof. unfold handleRetry; now destruct (fault _). Qed.

Create Rewrite HintDb step.

(** Computes with the engine and leaves the awaited steps folded. *)
Ltac crunch :=
  repeat progress
    (cbn -[await driverStep sleep Z.add Z.leb Z.of_nat Nat.ltb] in *;
     autorewrite with step in *).

#[local] Hint Rewrite await_config await_currentIndex await_records
  await_results await_isRunning await_tick await_raised : step.

(** ** The retry loop *)

Opaque await.

Lemma loop_exit_ends w r k m :
  (k <=? maxRetries (config (engine m)))%Z && isRunning (engine m) = false ->
  loopEnds w r k m Normal m [].
Proof.
  intros C. right; right. repeat split.
  apply andb_false_iff in C as [C|C]; [right|left; exact C].
  split; [apply Z.leb_gt in C; lia | reflexivity].
Qed.

Lemma retryLoop_spec (w : World) (r : FormRecord) (gas : nat) :
  forall k m o m',
    retryLoop gas w r k m = Some (o, m') ->
    config (engine m') = config (engine m)
    /\ records (engine m') = records (engine m)
    /\ (isRunning (engine m') = true -> isRunning (engine m) = true)
    /\ (noStop w -> isRunning (engine m') = isRunning (engine m))
    /\ exists errs,
         raised m' = raised m ++ map (pair (currentIndex (engine m))) errs
         /\ retries (results (engine m'))
            = (retries (results (engine m)) + List.length errs)%nat
         /\ loopEnds w r k m o m' errs.
Proof.
  induction gas as [|gas IH]; intros k m o m' H; cbn -[await driverStep] in H;
    destruct ((k <=? _)%Z && _) eqn:C; try discriminate;
    try (injection H as <- <-;
         split; [reflexivity|]; split; [reflexivity|]; split; [auto|];
         split; [reflexivity|];
         exists []; cbn; rewrite app_nil_r, Nat.add_0_r;
         split; [reflexivity|]; split; [reflexivity|];
         now apply loop_exit_ends).
  apply andb_true_iff in C as [Ck Crun]. apply Z.leb_le in Ck.
  unfold driverStep in H.
  destruct (attemptError _ _) as [message|] eqn:A.
  - destruct ((k + 1 <=? _)%Z) eqn:C'.
    + pose proof (handleRetry_machine w
                    (warn message (onEngine countRetry
                                     (await w (took (w (tick m))) m)))) as Hm3.
      pose proof (handleRetry_outcome w
                    (warn message (onEngine countRetry
                                     (await w (took (w (tick m))) m)))) as Ho3.
      destruct (handleRetry w _) as [[|e] m3]; cbn -[await] in Hm3, Ho3;
        subst m3.
      * apply IH in H as (Hc & Hr & Hrun & Hns & errs & Hraised & Hret & Hend).
        crunch.
        split; [exact Hc|]. split; [exact Hr|]. split; [auto|].
        split; [intros NS; rewrite (Hns NS), Crun, !NS; reflexivity|].
        exists (message :: errs).
        split; [rewrite Hraised, <- app_assoc; reflexivity|].
        split; [cbn; lia|].
        unfold loopEnds in *. crunch.
        replace (k + Z.of_nat (S (List.length errs)))%Z
          with (k + 1 + Z.of_nat (List.length errs))%Z by lia.
        destruct Hend as [Hend|[Hend|Hend]].
        -- left. exact Hend.
        -- right; left.
           destruct Hend as (? & ? & ? & ? & earlier & msg & -> & ?).
           repeat split; auto.
           exists (message :: earlier), msg. split; [reflexivity|auto].
        -- right; right.
           destruct Hend as (? & ? & ? & Ho). repeat split; auto.
           destruct o.
           ++ destruct Ho as [Ho|[Ho _]]; [left; exact Ho | lia].
           ++ destruct Ho as (n & Hn & Hf). exists n. split; [lia|auto].
      * injection H as <- <-. crunch.
        split; [reflexivity|]. split; [reflexivity|]. split; [auto|].
        split; [intros NS; rewrite Crun, !NS; reflexivity|].
        exists [message].
        split; [reflexivity|]. split; [cbn; lia|].
        unfold loopEnds. crunch.
        right; right. repeat split.
        exists (S (tick m)). split; [lia|].
        destruct (fault (w (S (tick m)))); [congruence | discriminate].
    + injection H as <- <-. apply Z.leb_gt in C'. crunch.
      split; [reflexivity|]. split; [reflexivity|]. split; [auto|].
      split; [intros NS; rewrite Crun, NS; reflexivity|].
      exists [message].
      split; [reflexivity|]. split; [cbn; lia|].
      unfold loopEnds. crunch.
      right; left. repeat split; [cbn; lia|].
      exists [], message. split; [reflexivity|].
      replace (k + 1)%Z with (maxRetries (config (engine m)) + 1)%Z by lia.
      reflexivity.
  - injection H as <- <-. rewrite freshForm_await. crunch.
    split; [reflexivity|]. split; [reflexivity|]. split; [auto|].
    split; [intros NS; rewrite Crun, !NS; reflexivity|].
    exists []. cbn. rewrite app_nil_r, Nat.add_0_r.
    split; [reflexivity|]. split; [reflexivity|].
    unfold loopEnds. crunch. left. repeat split.
    now rewrite Z.add_0_r.
Qed.

(** [maxRetries + 1 - retryCount] turns are always enough. *)
Lemma retryLoop_gas (w : World) (r : FormRecord) (gas : nat) :
  forall k m,
    (maxRetries (config (engine m)) + 1 - k <= Z.of_nat gas)%Z ->
    exists res, retryLoop gas w r k m = Some res.
Proof.
  induction gas as [|gas IH]; intros k m G; cbn -[await driverStep];
    destruct ((k <=? _)%Z && _) eqn:C; eauto.
  - apply andb_true_iff in C as [Ck _]. apply Z.leb_le in Ck. lia.
  - apply andb_true_iff in C as [Ck _]. apply Z.leb_le in Ck.
    destruct (attemptError _ _) as [message|]; eauto.
    destruct ((k + 1 <=? maxRetries (config (engine m)))%Z); eauto.
    pose proof (handleRetry_machine w
                  (warn message (onEngine countRetry (driverStep w m)))) as Hm3.
    destruct (handleRetry w _) as [[|e] m3]; eauto.
    cbn in Hm3; subst m3. apply IH. unfold driverStep. crunch. lia.
Qed.

(** ** One record *)

Lemma pace_cases (w : World) (m : Machine) :
  pace w m = m
  \/ (isRunning (engine m) = true
      /\ (currentIndex (engine m) < List.length (records (engine m)))%nat
      /\ pace w m
         = await w
             (timerDelay
                (getRandomDelay (config (engine m)) (random (w (tick m)))))
             m).
Proof.
  unfold pace, sleep.
  destruct (isRunning (engine m)); [|now left].
  destruct (Nat.ltb_spec (currentIndex (engine m))
                         (List.length (records (engine m)))); cbn; auto.
Qed.

Lemma processRecord_total (w : World) (m : Machine) :
  exists res, processRecord w m = Some res.
Proof.
  unfold processRecord. destruct (nth_error _ _) as [r|]; eauto.
  destruct (retryLoop_gas w r
              (Z.to_nat (maxRetries (config (engine m)) + 1)) 0 m) as [[o m'] E];
    [lia|].
  rewrite E. destruct o; eauto.
Qed.

(** What [processRecord] does to the engine: what its retry loop does; the
    pacing wait that follows can only clear the running flag. *)
Lemma processRecord_spec (w : World) (m : Machine) (r : FormRecord) :
  forall o m',
    nth_error (records (engine m)) (currentIndex (engine m)) = Some r ->
    processRecord w m = Some (o, m') ->
    config (engine m') = config (engine m)
    /\ records (engine m') = records (engine m)
    /\ (isRunning (engine m') = true -> isRunning (engine m) = true)
    /\ (noStop w -> isRunning (engine m') = isRunning (engine m))
    /\ exists errs,
         raised m' = raised m ++ map (pair (currentIndex (engine m))) errs
         /\ retries (results (engine m'))
            = (retries (results (engine m)) + List.length errs)%nat
         /\ loopEnds w r 0 m o m' errs.
Proof.
  intros o m' R H. unfold processRecord in H. rewrite R in H.
  destruct (retryLoop _ w r 0 m) as [[[|e] mid]|] eqn:L; try discriminate;
    injection H as <- <-;
    apply retryLoop_spec in L
      as (Hc & Hr & Hrun & Hns & errs & Hraised & Hret & Hend);
    [|repeat split; eauto].
  destruct (pace_cases w mid) as [->|(Prun & Plt & ->)];
    [repeat split; eauto|].
  crunch.
  split; [exact Hc|]. split; [exact Hr|].
  split; [intros [? _]%andb_true_iff; auto|].
  split; [intros NS; rewrite <- (Hns NS), NS; now destruct (isRunning _)|].
  exists errs. split; [exact Hraised|]. split; [exact Hret|].
  unfold loopEnds in *. crunch.
  destruct Hend as [Hend|[Hend|Hend]]; [left; exact Hend|right; left; exact Hend|].
  right; right. destruct Hend as (? & ? & ? & [Ho|Ho]); repeat split; auto.
  rewrite Ho in Prun; discriminate.
Qed.

Lemma loopEnds_counts w r k m o m' errs :
  loopEnds w r k m o m' errs ->
  (currentIndex (engine m') = currentIndex (engine m)
   /\ finalized (engine m') = finalized (engine m))
  \/ (o = Normal
      /\ currentIndex (engine m') = S (currentIndex (engine m))
      /\ finalized (engine m') = S (finalized (engine m))).
Proof.
  unfold loopEnds, finalized.
  intros [(Ho & Hi & Hs & Hf)
         |[(Ho & Hi & Hs & _ & earlier & message & _ & Hf)
          |(Hi & Hs & Hf & _)]];
    rewrite Hs, Hf, ?length_app; cbn; [right|right|left]; repeat split;
    auto; lia.
Qed.

(** ** The whole run *)

(** Whatever happens, the loop keeps the records, moves the index forward
    only, and adds one entry to [results] for every index it passes. *)
Lemma automationLoop_invariant (w : World) (fuel : nat) :
  forall m o m',
    automationLoop fuel w m = Some (o, m') ->
    config (engine m') = config (engine m)
    /\ records (engine m') = records (engine m)
    /\ (currentIndex (engine m) <= currentIndex (engine m'))%nat
    /\ (finalized (engine m') + currentIndex (engine m)
        = finalized (engine m) + currentIndex (engine m'))%nat
    /\ ((currentIndex (engine m) <= List.length (records (engine m)))%nat ->
        (currentIndex (engine m') <= List.length (records (engine m)))%nat)
    /\ (noStop w -> isRunning (engine m') = isRunning (engine m)).
Proof.
  induction fuel as [|fuel IH]; intros m o m' H; cbn -[processRecord Nat.ltb] in H;
    destruct (isRunning (engine m)
              && (currentIndex (engine m) <? List.length (records (engine m)))%nat)
      eqn:C; try discriminate;
    try (injection H as <- <-; repeat split; auto).
  apply andb_true_iff in C as [Crun Clt]. apply Nat.ltb_lt in Clt.
  destruct (nth_error (records (engine m)) (currentIndex (engine m)))
    as [r|] eqn:R; [|apply nth_error_None in R; lia].
  destruct (processRecord w m) as [[[|e] m1]|] eqn:P; try discriminate.
  - pose proof (processRecord_spec w m r _ _ R P)
      as (Hc & Hr & _ & Hns & errs & _ & _ & Hend).
    apply IH in H as (Hc' & Hr' & Hle & Hfin & Hlen & Hns').
    apply loopEnds_counts in Hend.
    rewrite Hr in *.
    split; [congruence|]. split; [congruence|].
    split; [lia|]. split; [lia|]. split; [intros _; apply Hlen; lia|].
    intros NS. rewrite (Hns' NS). exact (Hns NS).
  - injection H as <- <-.
    pose proof (processRecord_spec w m r _ _ R P)
      as (Hc & Hr & _ & Hns & errs & _ & _ & Hend).
    apply loopEnds_counts in Hend.
    destruct Hend as [[Hi Hf]|(Habs & _)]; [|discriminate].
    repeat split; auto; lia.
Qed.

(** When the loop returns and the engine still runs, the records are
    exhausted. *)
Lemma automationLoop_exhausts (w : World) (fuel : nat) :
  forall m m',
    automationLoop fuel w m = Some (Normal, m') ->
    isRunning (engine m') = true ->
    (List.length (records (engine m')) <= currentIndex (engine m'))%nat.
Proof.
  induction fuel as [|fuel IH]; intros m m' H Run; cbn -[processRecord Nat.ltb] in H;
    destruct (isRunning (engine m)
              && (currentIndex (engine m) <? List.length (records (engine m)))%nat)
      eqn:C; try discriminate.
  - injection H as <-. rewrite Run in C. cbn in C. now apply Nat.ltb_ge in C.
  - destruct (processRecord w m) as [[[|e] m1]|]; try discriminate. eauto.
  - injection H as <-. rewrite Run in C. cbn in C. now apply Nat.ltb_ge in C.
Qed.

(** With retries allowed, nobody stopping and no navigation failure, one
    unit of fuel per remaining record brings the loop to its end. *)
Lemma automationLoop_completes (w : World) (fuel : nat) :
  forall m,
    noStop w -> noFault w ->
    (0 <= maxRetries (config (engine m)))%Z ->
    (List.length (records (engine m)) - currentIndex (engine m) <= fuel)%nat ->
    exists m', automationLoop fuel w m = Some (Normal, m').
Proof.
  induction fuel as [|fuel IH]; intros m NS NF Max Fuel;
    cbn -[processRecord Nat.ltb];
    destruct (isRunning (engine m)
              && (currentIndex (engine m) <? List.length (records (engine m)))%nat)
      eqn:C; eauto;
    apply andb_true_iff in C as [Crun Clt]; apply Nat.ltb_lt in Clt; [lia|].
  destruct (nth_error (records (engine m)) (currentIndex (engine m)))
    as [r|] eqn:R; [|apply nth_error_None in R; lia].
  destruct (processRecord_total w m) as [[o m1] P]. rewrite P.
  pose proof (processRecord_spec w m r _ _ R P)
    as (Hc & Hr & _ & Hns & errs & _ & _ & Hend).
  specialize (Hns NS). rewrite Crun in Hns.
  destruct Hend as [(-> & Hi & _)|[(-> & Hi & _)|(_ & _ & _ & Ho)]].
  - apply IH; auto; rewrite ?Hc, ?Hr, ?Hi; auto; lia.
  - apply IH; auto; rewrite ?Hc, ?Hr, ?Hi; auto; lia.
  - destruct o.
    + destruct Ho as [Ho|[Ho _]]; [congruence | lia].
    + destruct Ho as (n & _ & Hf). rewrite NF in Hf. discriminate.
Qed.

Lemma startAutomation_completes (w : World) (recs : list FormRecord)
  (m : Machine) :
  noStop w -> noFault w ->
  (0 <= maxRetries (config (engine m)))%Z ->
  isRunning (engine m) = false ->
  exists m',
    startAutomation (List.length recs) w recs 0 m = Some (Normal, m').
Proof.
  intros NS NF Max Idle. unfold startAutomation, navigateToForm.
  rewrite Idle, NF.
  destruct (automationLoop_completes w (List.length recs)
              (driverStep w (onEngine (beginRun recs 0) m))) as [m' E];
    auto; [unfold driverStep; crunch; auto .. | rewrite E; eauto].
  lia.
Qed.

Lemma entriesOf_app (i : nat) (l l' : list Entry) :
  entriesOf i (l ++ l') = entriesOf i l ++ entriesOf i l'.
Proof. apply filter_app. Qed.

Lemma loopEnds_cursor w r k m o m' errs :
  loopEnds w r k m o m' errs ->
  oneEntryBeforeCursor (engine m) -> oneEntryBeforeCursor (engine m').
Proof.
  intros Hend Inv j. specialize (Inv j).
  unfold loopEnds, entryCount in *.
  destruct Hend as [(_ & Hi & Hs & Hf)
                   |[(_ & Hi & Hs & _ & earlier & message & _ & Hf)
                    |(Hi & Hs & Hf & _)]];
    rewrite Hi, Hs, Hf, ?entriesOf_app, ?length_app;
    [| |exact Inv]; cbn;
    destruct (Nat.eqb_spec (currentIndex (engine m)) j) as [Heq|Hne]; cbn;
    destruct (Nat.ltb_spec j (currentIndex (engine m)));
    destruct (Nat.leb_spec j (currentIndex (engine m))); lia.
Qed.

Lemma automationLoop_cursor (w : World) (fuel : nat) :
  forall m o m',
    automationLoop fuel w m = Some (o, m') ->
    oneEntryBeforeCursor (engine m) -> oneEntryBeforeCursor (engine m').
Proof.
  induction fuel as [|fuel IH]; intros m o m' H Inv;
    cbn -[processRecord Nat.ltb] in H;
    destruct (isRunning (engine m)
              && (currentIndex (engine m) <? List.length (records (engine m)))%nat)
      eqn:C; try discriminate;
    try (injection H as <- <-; exact Inv).
  apply andb_true_iff in C as [_ Clt]. apply Nat.ltb_lt in Clt.
  destruct (nth_error (records (engine m)) (currentIndex (engine m)))
    as [r|] eqn:R; [|apply nth_error_None in R; lia].
  destruct (processRecord w m) as [[o1 m1]|] eqn:P; [|discriminate].
  pose proof (processRecord_spec w m r _ _ R P)
    as (_ & _ & _ & _ & errs & _ & _ & Hend).
  apply loopEnds_cursor in Hend; [|exact Inv].
  destruct o1; [eauto|]. injection H as <- <-. exact Hend.
Qed.

(** In any run that starts at index 0, whatever interrupts it, every record
    before [currentIndex] has exactly one entry and no other record has
    any. *)
Lemma startAutomation_cursor (fuel : nat) (w : World)
  (recs : list FormRecord) (m : Machine) (o : Outcome) (m' : Machine) :
  isRunning (engine m) = false ->
  startAutomation fuel w recs 0 m = Some (o, m') ->
  oneEntryBeforeCursor (engine m').
Proof.
  intros Idle H. unfold startAutomation, navigateToForm in H.
  rewrite Idle in H.
  assert (Inv : oneEntryBeforeCursor
                  (engine (driverStep w (onEngine (beginRun recs 0) m)))).
  { intros i. unfold driverStep, entryCount. crunch. reflexivity. }
  destruct (fault _).
  - injection H as <- <-. intros i. specialize (Inv i).
    unfold entryCount in *. crunch. exact Inv.
  - destruct (automationLoop _ _ _) as [[o3 m3]|] eqn:L; [|discriminate].
    injection H as <- <-.
    apply automationLoop_cursor in L; [|exact Inv].
    intros i. specialize (L i). unfold entryCount in *. crunch. exact L.
Qed.

Lemma app_one_neq {A : Type} (l : list A) (x : A) : l ++ [x] <> l.
Proof.
  intros E. apply (f_equal (@List.length A)) in E.
  rewrite length_app in E. cbn in E. lia.
Qed.

(** C1. When [startAutomation(records, 0)] returns normally on a non-empty
    sequence and nobody asked to stop or pause (a navigation failure would
    be a throw, not a normal return), the two result lists together have as
    many entries as there are records, and [currentIndex] is the number of
    records. *)
Theorem uninterrupted_run_counts (fuel : nat) (w : World)
  (recs : list FormRecord) (m m' : Machine) :
  recs <> [] ->
  noStop w ->
  startAutomation fuel w recs 0 m = Some (Normal, m') ->
  (List.length (successful (results (engine m')))
   + List.length (failed (results (engine m'))))%nat = List.length recs
  /\ currentIndex (engine m') = List.length recs.
Proof.
  intros _ NS H. unfold startAutomation, navigateToForm in H.
  destruct (isRunning (engine m)); [discriminate|].
  destruct (fault _); [discriminate|].
  destruct (automationLoop _ _ _) as [[o m3]|] eqn:L; [|discriminate].
  injection H as -> <-.
  pose proof (automationLoop_invariant _ _ _ _ _ L)
    as (_ & Hr & _ & Hfin & Hlen & Hns).
  pose proof (automationLoop_exhausts _ _ _ _ L) as Hex.
  specialize (Hns NS). unfold driverStep in *. unfold finalized in Hfin.
  crunch. rewrite NS in Hns. rewrite Hr in Hex.
  specialize (Hex Hns). specialize (Hlen (Nat.le_0_l _)). lia.
Qed.

(** When every attempt fails, the retry loop adds nothing to
    [results.successful]. *)
Lemma retryLoop_never_succeeds (w : World) (r : FormRecord) (gas : nat) :
  forall k m o m',
    (forall n, attemptError (config (engine m)) (attempt (w n)) <> None) ->
    retryLoop gas w r k m = Some (o, m') ->
    successful (results (engine m')) = successful (results (engine m)).
Proof.
  induction gas as [|gas IH]; intros k m o m' F H; cbn -[await driverStep] in H;
    destruct ((k <=? _)%Z && _) eqn:C; try discriminate;
    try (injection H as <- <-; reflexivity).
  unfold driverStep in H.
  destruct (attemptError _ _) as [message|] eqn:A; [|now apply F in A].
  destruct ((k + 1 <=? _)%Z) eqn:C'.
  - pose proof (handleRetry_machine w
                  (warn message (onEngine countRetry
                                   (await w (took (w (tick m))) m)))) as Hm3.
    destruct (handleRetry w _) as [[|e] m3]; cbn -[await] in Hm3; subst m3.
    + apply IH in H; [|crunch; exact F]. crunch. exact H.
    + injection H as <- <-. crunch. reflexivity.
  - injection H as <- <-. crunch. reflexivity.
Qed.

Lemma processRecord_never_succeeds (w : World) (m : Machine) :
  forall o m',
    (forall n, attemptError (config (engine m)) (attempt (w n)) <> None) ->
    processRecord w m = Some (o, m') ->
    successful (results (engine m')) = successful (results (engine m)).
Proof.
  intros o m' F P. unfold processRecord in P.
  destruct (nth_error _ _) as [r|]; [|injection P as <- <-; reflexivity].
  destruct (retryLoop _ w r 0 m) as [[[|e] m1]|] eqn:L; try discriminate;
    injection P as <- <-;
    pose proof (retryLoop_never_succeeds w r _ _ _ _ _ F L) as S.
  - destruct (pace_cases w m1) as [->|(_ & _ & ->)]; crunch; exact S.
  - exact S.
Qed.

(** C2. A record whose first attempt succeeds gets an entry in
    [results.successful] with [attempts = 1]. A record all of whose
    attempts fail, while nobody asks to stop and every page refresh
    succeeds, gets an entry in [results.failed] with
    [attempts = maxRetries + 1] and the message of the last of the
    [maxRetries + 1] errors raised for it. And whatever the world does, an
    entry that [processRecord] appends to [results.failed] has
    [attempts = maxRetries + 1]: exactly that many errors were raised for
    the record, and the entry carries the message of the last one. *)
Theorem attempts_recorded (w : World) (m : Machine) (r : FormRecord) :
  nth_error (records (engine m)) (currentIndex (engine m)) = Some r ->
  (isRunning (engine m) = true ->
   (0 <= maxRetries (config (engine m)))%Z ->
   attemptError (config (engine m)) (attempt (w (tick m))) = None ->
   exists m',
     processRecord w m = Some (Normal, m')
     /\ successful (results (engine m'))
        = successful (results (engine m))
          ++ [{| index := currentIndex (engine m); record := r;
                 error := None; attempts := 1 |}]
     /\ failed (results (engine m')) = failed (results (engine m)))
  /\
  (isRunning (engine m) = true ->
   (0 <= maxRetries (config (engine m)))%Z ->
   noStop w ->
   noFault w ->
   (forall n, attemptError (config (engine m)) (attempt (w n)) <> None) ->
   exists m' earlier message,
     processRecord w m = Some (Normal, m')
     /\ failed (results (engine m'))
        = failed (results (engine m))
          ++ [{| index := currentIndex (engine m); record := r;
                 error := Some message;
                 attempts := maxRetries (config (engine m)) + 1 |}]
     /\ successful (results (engine m')) = successful (results (engine m))
     /\ raised m'
        = raised m
          ++ map (pair (currentIndex (engine m))) (earlier ++ [message])
     /\ Z.of_nat (List.length (earlier ++ [message]))
        = (maxRetries (config (engine m)) + 1)%Z)
  /\
  (forall o m' entry,
     processRecord w m = Some (o, m') ->
     failed (results (engine m')) = failed (results (engine m)) ++ [entry] ->
     attempts entry = (maxRetries (config (engine m)) + 1)%Z
     /\ exists earlier message,
          raised m'
          = raised m
            ++ map (pair (currentIndex (engine m))) (earlier ++ [message])
          /\ Z.of_nat (List.length (earlier ++ [message]))
             = (maxRetries (config (engine m)) + 1)%Z
          /\ error entry = Some message).
Proof.
  intros R. split; [|split].
  - intros Run Max A.
    destruct (processRecord_total w m) as [[o m'] P].
    pose proof P as P'. unfold processRecord in P'. rewrite R in P'.
    destruct (Z.to_nat (maxRetries (config (engine m)) + 1)) as [|gas] eqn:G;
      [lia|].
    cbn -[await driverStep pace] in P'.
    rewrite Run, A in P'.
    replace (0 <=? maxRetries (config (engine m)))%Z with true in P'
      by (symmetry; apply Z.leb_le; exact Max).
    cbn -[await driverStep pace] in P'. injection P' as <- <-.
    exists (pace w
              (onEngine advance
                 (freshForm w
                    (onEngine
                       (pushSuccessful
                          {| index := currentIndex (engine (driverStep w m));
                             record := r; error := None; attempts := 0 + 1 |})
                       (driverStep w m))))).
    split; [exact P|].
    rewrite freshForm_await.
    match goal with |- context [pace w ?x] =>
      destruct (pace_cases w x) as [->|(_ & _ & ->)] end;
      unfold driverStep; crunch; auto.
  - intros Run Max NS NF F.
    destruct (processRecord_total w m) as [[o m'] P].
    pose proof (processRecord_never_succeeds w m _ _ F P) as Hs.
    pose proof (processRecord_spec w m r _ _ R P)
      as (_ & _ & _ & Hrun & errs & Hraised & _ & Hend).
    specialize (Hrun NS).
    destruct Hend as [(_ & _ & Hs' & _)
                     |[(-> & _ & _ & Hn & earlier & message & -> & Hf)
                      |(_ & _ & _ & Ho)]].
    + rewrite Hs' in Hs. now apply app_one_neq in Hs.
    + exists m', earlier, message.
      split; [exact P|]. split; [exact Hf|]. split; [exact Hs|].
      split; [exact Hraised|]. lia.
    + destruct o.
      * destruct Ho as [Ho|[Ho _]]; [congruence|lia].
      * destruct Ho as (n & _ & Hn). now rewrite NF in Hn.
  - intros o m' entry P F.
    pose proof (processRecord_spec w m r _ _ R P)
      as (_ & _ & _ & _ & errs & Hraised & _ & Hend).
    destruct Hend as [(_ & _ & _ & Hf)
                     |[(_ & _ & _ & Hn & earlier & message & -> & Hf)
                      |(_ & _ & Hf & _)]];
      rewrite Hf in F;
      try (symmetry in F; now apply app_one_neq in F).
    apply app_inv_head in F. injection F as <-. cbn.
    split; [reflexivity|]. exists earlier, message.
    split; [exact Hraised|]. split; [lia|reflexivity].
Qed.

(** ** Success detection *)

(** The form-cleared signal is raised by one blank input. *)
Lemma formCleared_some (values : list string) :
  formCleared values = true
  <-> exists value, In value values /\ JsString.trim value = EmptyString.
Proof.
  unfold formCleared. rewrite existsb_exists.
  split; intros (value & Hin & Hv); exists value; split; auto;
    now apply String.eqb_eq.
Qed.



(** C8, the code at the failing input: with no error marker, no success
    marker and the URL unchanged, one blank input next to a filled one
    raises the form-cleared signal and the detection ends on it; with both
    inputs filled the signal is not raised and the detection goes on to its
    last step. *)
Theorem formCleared_on_one_blank_input :
  formCleared ["Ada"%string; EmptyString] = true
  /\ hasUrlChanged defaultConfig (plainPage ["Ada"%string; EmptyString]) = false
  /\ waitForSubmissionSuccess defaultConfig (plainPage ["Ada"%string; EmptyString])
     = SuccessDetected
  /\ waitForSubmissionSuccess defaultConfig
       (plainPage ["Ada"%string; "Lovelace"%string])
     = NoClearIndicator.
Proof. repeat split. Qed.

(** ** Pacing *)

(** C7, amended. For a base delay that is not negative (and no more than
    [2^1023], so that no result overflows), a variation between 0 and 1 and
    a random value in [0, 1), when no intermediate result underflows,
    [getRandomDelay] is between
    [base * (1 - variation / 2)] and [base * (1 + variation / 2)] up to
    the rounding of its four operations: a relative error of [2^-50] at
    most. *)
Theorem getRandomDelay_bounds (cfg : Config) (random : Q) :
  0 <= submissionDelay cfg ->
  0 <= randomDelayVariation cfg <= 1 ->
  0 <= random < 1 ->
  submissionDelay cfg <= Double.pow2 1023 ->
  noUnderflow cfg random ->
  submissionDelay cfg * (1 - randomDelayVariation cfg / 2)
  * (1 - Double.pow2 (-50))
  <= getRandomDelay cfg random
  <= submissionDelay cfg * (1 + randomDelayVariation cfg / 2)
     * (1 + Double.pow2 (-50)).
Proof.
  intros Hb [Hv0 Hv1] [Hr0 Hr1] _ (N1 & N0 & N2 & N3).
  unfold getRandomDelay, Double.add, Double.mul, Double.sub in *.
  cbv zeta in *.
  set (b := submissionDelay cfg) in *.
  set (v := randomDelayVariation cfg) in *.
  change (Double.pow2 (-50)) with (1 # 1125899906842624).
  assert (Hz0 : 0 <= b * v) by (apply Qmult_le_0_compat; assumption).
  assert (Hz1 : b * v <= b).
  { setoid_replace b with (b * 1) at 2 by ring.
    apply Qmult_le_compat_nonneg; split; try assumption; lra. }
  pose proof (rnd_within _ N1) as P. rewrite (Qabs_pos _ Hz0) in P.
  set (p := Double.rnd (b * v)) in *.
  pose proof (rnd_within _ N0) as D.
  assert (Hx0 : Qabs (random - (1 # 2)) <= 1 # 2)
    by (apply Qabs_Qle_condition; lra).
  set (d := Double.rnd (random - (1 # 2))) in *.
  assert (Hd : Qabs d <= (1 # 2) + (1 # 18014398509481984))
    by (apply Qabs_Qle_condition; lra).
  pose proof (rnd_within _ N2) as T.
  assert (Hx2 : Qabs (d * p)
                <= ((1 # 2) + (1 # 18014398509481984))
                   * (b * v + (1 # 9007199254740992) * (b * v))).
  { rewrite Qabs_Qmult.
    apply Qmult_le_compat_nonneg; split;
      [apply Qabs_nonneg | exact Hd | apply Qabs_nonneg |].
    apply Qabs_Qle_condition. lra. }
  pose proof (Qabs_nonneg (d * p)) as Hx2'.
  pose proof (Qle_Qabs (d * p)) as Hx2u.
  pose proof (Qle_Qabs (- (d * p))) as Hx2l. rewrite Qabs_opp in Hx2l.
  set (x2 := d * p) in *. set (a2 := Qabs x2) in *.
  set (t := Double.rnd x2) in *.
  pose proof (rnd_within _ N3) as R.
  set (z := b * v) in *.
  assert (Hx3 : 0 <= b + t) by lra.
  rewrite (Qabs_pos _ Hx3) in R.
  set (res := Double.rnd (b + t)) in *.
  setoid_replace (b * (1 - v / 2)) with (b - (1 # 2) * z)
    by (unfold z; field).
  setoid_replace (b * (1 + v / 2)) with (b + (1 # 2) * z)
    by (unfold z; field).
  split; lra.
Qed.

(** C7, as stated, fails: with a base delay of 3 ms, a variation of 0.4 and
    [Math.random()] returning 0, the product [3 * 0.4] is rounded upwards
    and the delay is 2.3999999999999999112, below
    [3 * (1 - 0.4 / 2) = 2.3999999999999999667]. *)
Lemma getRandomDelay_leaves_interval :
  0 <= submissionDelay shortDelayConfig
  /\ 0 <= randomDelayVariation shortDelayConfig <= 1
  /\ Qred (getRandomDelay shortDelayConfig 0)
     = 5404319552844595 # 2251799813685248
  /\ ~ (submissionDelay shortDelayConfig
        * (1 - randomDelayVariation shortDelayConfig / 2)
        <= getRandomDelay shortDelayConfig 0
        <= submissionDelay shortDelayConfig
           * (1 + randomDelayVariation shortDelayConfig / 2)).
Proof.
  split; [discriminate|]. split; [split; discriminate|].
  split; [vm_compute; reflexivity|].
  intros [H _]. vm_compute in H. apply H. reflexivity.
Qed.

(** ** Control requests *)

(** C9. A second [pause()] (or [stop()]) leaves the engine as the first one
    did, and [getStatus] reports the same. *)
Theorem pause_stop_idempotent (e : Engine) :
  snd (pause (snd (pause e))) = snd (pause e)
  /\ snd (stop (snd (stop e))) = snd (stop e)
  /\ getStatus (snd (pause (snd (pause e)))) = getStatus (snd (pause e))
  /\ getStatus (snd (stop (snd (stop e)))) = getStatus (snd (stop e)).
Proof. repeat split. Qed.

(** C10. [pause()] and [stop()] do the same to the engine, clearing
    [isRunning] and nothing else (they differ in the line they log), so the
    status and a later [resume()] are the same after either. *)
Theorem pause_stop_same_engine (e : Engine) :
  snd (pause e) = snd (stop e)
  /\ snd (pause e) = setRunning false e
  /\ fst (pause e) <> fst (stop e)
  /\ getStatus (snd (pause e)) = getStatus (snd (stop e))
  /\ forall fuel w m,
       resume fuel w (onEngine (fun _ => snd (pause e)) m)
       = resume fuel w (onEngine (fun _ => snd (stop e)) m).
Proof. repeat split. discriminate. Qed.

(** [resume()] sets [isRunning] and then calls [startAutomation], whose
    guard throws because it is set: the engine is left marked as running
    with no loop running. *)
Lemma resume_throws (fuel : nat) (w : World) (m : Machine) :
  isRunning (engine m) = false ->
  records (engine m) <> [] ->
  resume fuel w m
  = Some (Throw "Automation is already running", onEngine (setRunning true) m).
Proof.
  intros Idle Recs. unfold resume. rewrite Idle.
  destruct (records (engine m)) eqn:E; [now elim Recs|].
  cbn. unfold startAutomation. cbn. reflexivity.
Qed.

(** ** Scenarios *)

Transparent await.

(** Runs the controller step by step; [rw] rewrites with what is known of
    the world. *)
Ltac execute rw :=
  unfold noStop, noFault in *;
  unfold startAutomation, navigateToForm, boot;
  repeat (progress (unfold processRecord, driverStep, pace, sleep, handleRetry,
                      freshForm, await;
                    cbn -[Z.add Z.leb Z.to_nat Qplus getRandomDelay timerDelay];
                    rw)).

(** C4, amended. Steps of the world in this scenario: 0 is the navigation
    to the form; 1 the attempt on record 1; 4 and 6 the two attempts on
    record 2; 9 and 11 the two attempts on record 3 (the other steps are
    fresh-form navigations, page refreshes and pacing waits). With
    [maxRetries = 1], the first record accepted at once, the second at its
    second attempt and the third never, the run ends with two successes,
    one failure, [currentIndex = 3] and [retries = 3]: one for every failed
    attempt. *)
Theorem three_record_scenario (w : World) (cfg : Config)
  (r1 r2 r3 : FormRecord) :
  maxRetries cfg = 1%Z ->
  noStop w ->
  noFault w ->
  attemptError cfg (attempt (w 1%nat)) = None ->
  attemptError cfg (attempt (w 4%nat)) <> None ->
  attemptError cfg (attempt (w 6%nat)) = None ->
  attemptError cfg (attempt (w 9%nat)) <> None ->
  attemptError cfg (attempt (w 11%nat)) <> None ->
  exists m',
    startAutomation 3 w [r1; r2; r3] 0 (boot cfg) = Some (Normal, m')
    /\ List.length (successful (results (engine m'))) = 2%nat
    /\ List.length (failed (results (engine m'))) = 1%nat
    /\ retries (results (engine m')) = 3%nat
    /\ currentIndex (engine m') = 3%nat.
Proof.
  intros Max NS NF A1 A4 A6 A9 A11.
  destruct (attemptError cfg (attempt (w 4%nat))) as [e4|] eqn:E4;
    [clear A4|contradiction].
  destruct (attemptError cfg (attempt (w 9%nat))) as [e9|] eqn:E9;
    [clear A9|contradiction].
  destruct (attemptError cfg (attempt (w 11%nat))) as [e11|] eqn:E11;
    [clear A11|contradiction].
  execute ltac:(rewrite ?NS, ?NF, ?Max, ?A1, ?E4, ?A6, ?E9, ?E11;
                change (Z.to_nat (1 + 1)) with 2%nat;
                change (0 <=? 1)%Z with true;
                change (0 + 1 <=? 1)%Z with true;
                change (0 + 1 + 1 <=? 1)%Z with false).
  eexists. split; [reflexivity|]. repeat split.
Qed.

(** C4, as stated, fails: the scenario ends with [retries = 3], not 1. *)
Lemma three_record_scenario_retries :
  report (startAutomation 3 threeRecordWorld three 0
            (boot (withMaxRetries 1 defaultConfig)))
  = Some (Normal,
          {| st_isRunning := false; st_currentIndex := 3;
             st_totalRecords := 3; st_progress := 100;
             st_successful := 2; st_failed := 1; st_retries := 3 |})
  /\ ~ (option_map (fun res => st_retries (snd res))
          (report (startAutomation 3 threeRecordWorld three 0
                     (boot (withMaxRetries 1 defaultConfig))))
        = Some 1%nat).
Proof. split; [vm_compute; reflexivity | vm_compute; discriminate]. Qed.

Lemma automationLoop_idle (fuel : nat) (w : World) (m : Machine) :
  isRunning (engine m) = false -> automationLoop fuel w m = Some (Normal, m).
Proof. intros Idle. destruct fuel; cbn; now rewrite Idle. Qed.

(** C5, amended. When a request to stop was honoured while a record was
    being processed (between its retries included), the loop of
    [startAutomation] returns at once, so no later record is touched: the
    records before [currentIndex] keep one entry each and the others have
    none. The record itself has at most one entry: either none, with
    [currentIndex] left on it and both lists as before (the record is
    abandoned and the errors of its attempts are in the log only), or
    exactly one, in [successful] or in [failed], with [currentIndex] just
    past it. *)
Theorem stop_while_processing (fuel : nat) (w : World) (m m' : Machine)
  (r : FormRecord) :
  nth_error (records (engine m)) (currentIndex (engine m)) = Some r ->
  oneEntryBeforeCursor (engine m) ->
  processRecord w m = Some (Normal, m') ->
  isRunning (engine m') = false ->
  automationLoop fuel w m' = Some (Normal, m')
  /\ oneEntryBeforeCursor (engine m')
  /\ ((currentIndex (engine m') = currentIndex (engine m)
       /\ successful (results (engine m')) = successful (results (engine m))
       /\ failed (results (engine m')) = failed (results (engine m)))
      \/ (currentIndex (engine m') = S (currentIndex (engine m))
          /\ failed (results (engine m')) = failed (results (engine m))
          /\ exists n,
               successful (results (engine m'))
               = successful (results (engine m))
                 ++ [{| index := currentIndex (engine m); record := r;
                        error := None; attempts := n |}])
      \/ (currentIndex (engine m') = S (currentIndex (engine m))
          /\ successful (results (engine m')) = successful (results (engine m))
          /\ exists message,
               failed (results (engine m'))
               = failed (results (engine m))
                 ++ [{| index := currentIndex (engine m); record := r;
                        error := Some message;
                        attempts := maxRetries (config (engine m)) + 1 |}])).
Proof.
  intros R Inv P Idle. split; [now apply automationLoop_idle|].
  pose proof (processRecord_spec w m r _ _ R P)
    as (_ & _ & _ & _ & errs & _ & _ & Hend).
  split; [exact (loopEnds_cursor _ _ _ _ _ _ _ Hend Inv)|].
  destruct Hend as [(_ & Hi & Hs & Hf)
                   |[(_ & Hi & Hs & _ & earlier & message & _ & Hf)
                    |(Hi & Hs & Hf & _)]].
  - right; left. eauto.
  - right; right. eauto.
  - left. auto.
Qed.

(** A failed attempt that is not the last one allowed, with a request to
    stop arriving during it or during the page refresh that follows: the
    record is abandoned, and its error is in the log only. *)
Lemma stop_before_retry_abandons (w : World) (m : Machine) (r : FormRecord)
  (message : string) :
  nth_error (records (engine m)) (currentIndex (engine m)) = Some r ->
  isRunning (engine m) = true ->
  (1 <= maxRetries (config (engine m)))%Z ->
  attemptError (config (engine m)) (attempt (w (tick m))) = Some message ->
  fault (w (S (tick m))) = None ->
  stopRequested (w (tick m)) || stopRequested (w (S (tick m))) = true ->
  exists m',
    processRecord w m = Some (Normal, m')
    /\ currentIndex (engine m') = currentIndex (engine m)
    /\ successful (results (engine m')) = successful (results (engine m))
    /\ failed (results (engine m')) = failed (results (engine m))
    /\ raised m' = raised m ++ [(currentIndex (engine m), message)]
    /\ isRunning (engine m') = false.
Proof.
  intros R Run Max A NF Stop. unfold processRecord. rewrite R.
  destruct (Z.to_nat (maxRetries (config (engine m)) + 1))
    as [|[|gas]] eqn:G; try lia.
  cbn -[Z.add Z.leb]. rewrite Run, A.
  replace (0 <=? maxRetries (config (engine m)))%Z with true
    by (symmetry; apply Z.leb_le; lia).
  replace (0 + 1 <=? maxRetries (config (engine m)))%Z with true
    by (symmetry; apply Z.leb_le; lia).
  cbn -[Z.add Z.leb]. unfold handleRetry. cbn -[Z.add Z.leb]. rewrite NF.
  assert (Hrun : isRunning
                   (if stopRequested (w (S (tick m)))
                    then setRunning false
                           (countRetry
                              (if stopRequested (w (tick m))
                               then setRunning false (engine m)
                               else engine m))
                    else countRetry
                           (if stopRequested (w (tick m))
                            then setRunning false (engine m)
                            else engine m)) = false).
  { destruct (stopRequested (w (tick m))),
             (stopRequested (w (S (tick m)))); cbn in *;
      try reflexivity; discriminate. }
  destruct gas; cbn -[Z.add Z.leb]; rewrite Hrun, andb_false_r;
    (eexists; split;
     [unfold pace; cbn -[Z.add Z.leb]; rewrite Hrun; reflexivity|]);
    cbn; destruct (stopRequested (w (tick m))),
                  (stopRequested (w (S (tick m)))); cbn in *;
    repeat split; auto; discriminate.
Qed.

(** C5, as stated, fails: stopped during the page refresh before its first
    retry, the record at index 1 has no entry in either list, and the error
    raised for it is not among the messages of [results.failed]. *)
Lemma stop_mid_retry_abandons_record :
  ending (startAutomation 5 stopMidRetryWorld five 0 (boot defaultConfig))
  = Some (Normal, 1%nat, [0%nat], [], [],
          [(1%nat, "Field answer-5 (Email) not found"%string)])
  /\ entryCount 1
       (engine
          (machineOf
             (startAutomation 5 stopMidRetryWorld five 0 (boot defaultConfig))
             (boot defaultConfig)))
     <> 1%nat.
Proof. split; [vm_compute; reflexivity | vm_compute; discriminate]. Qed.

(** C6, amended. The pacing wait is a plain timer. When the retry loop of a
    record is over at machine [mid], the engine still runs and records are
    left, [processRecord] sleeps; if the request to stop arrives during
    that sleep, the flag is cleared but [processRecord] returns only when
    the timer has run its whole delay, at
    [now mid + timerDelay (getRandomDelay ...)]; the loop of
    [startAutomation] then sees the flag and returns without processing
    another record. *)
Theorem pacing_wait_runs_full_delay (fuel : nat) (w : World)
  (m mid : Machine) (r : FormRecord) :
  nth_error (records (engine m)) (currentIndex (engine m)) = Some r ->
  retryLoop (Z.to_nat (maxRetries (config (engine m)) + 1)) w r 0 m
  = Some (Normal, mid) ->
  isRunning (engine mid) = true ->
  (currentIndex (engine mid) < List.length (records (engine mid)))%nat ->
  stopRequested (w (tick mid)) = true ->
  exists m',
    processRecord w m = Some (Normal, m')
    /\ now m'
       = now mid
         + timerDelay
             (getRandomDelay (config (engine mid)) (random (w (tick mid))))
    /\ isRunning (engine m') = false
    /\ automationLoop fuel w m' = Some (Normal, m').
Proof.
  intros R L Run More Stop.
  exists (pace w mid). unfold processRecord. rewrite R, L.
  split; [reflexivity|].
  unfold pace, sleep. rewrite Run.
  apply Nat.ltb_lt in More. rewrite More. cbn [andb].
  assert (Idle : isRunning
                   (engine
                      (await w
                         (timerDelay
                            (getRandomDelay (config (engine mid))
                               (random (w (tick mid))))) mid)) = false)
    by (rewrite await_isRunning, Stop; apply andb_false_r).
  split; [reflexivity|]. split; [exact Idle|].
  now apply automationLoop_idle.
Qed.

(** C6, as stated, fails: the attempts on the first record are over at
    2000 ms, the delay is 5000 ms, the request to stop arrives during the
    wait, and [processRecord] still returns at 7000 ms, no earlier than the
    whole delay after the wait began. *)
Lemma pacing_wait_is_not_interrupted :
  returnsAt (retryLoop 4 stopInWaitWorld (person "Ada" "Lovelace") 0
               (started [person "Ada" "Lovelace"; person "Alan" "Turing"]
                        defaultConfig))
  = Some (2000, true)
  /\ stopRequested (stopInWaitWorld 2%nat) = true
  /\ timerDelay
       (getRandomDelay defaultConfig (random (stopInWaitWorld 2%nat)))
     = 5000
  /\ returnsAt (processRecord stopInWaitWorld
                  (started [person "Ada" "Lovelace"; person "Alan" "Turing"]
                           defaultConfig))
     = Some (7000, false)
  /\ ~ (7000 < 2000 + 5000).
Proof.
  repeat split; try (vm_compute; reflexivity).
  intros H. vm_compute in H. discriminate.
Qed.

(** ** The statements at concrete inputs *)

Lemma script_noStop (events : list Event) :
  forallb (fun ev => negb (stopRequested ev)) events = true ->
  noStop (script events).
Proof.
  intros H n. unfold script.
  destruct (nth_in_or_default n events quiet) as [Hin| ->]; [|reflexivity].
  rewrite forallb_forall in H. apply H in Hin.
  now destruct (stopRequested _).
Qed.

Lemma script_noFault (events : list Event) :
  forallb (fun ev => match fault ev with None => true | Some _ => false end)
          events = true ->
  noFault (script events).
Proof.
  intros H n. unfold script.
  destruct (nth_in_or_default n events quiet) as [Hin| ->]; [|reflexivity].
  rewrite forallb_forall in H. apply H in Hin.
  now destruct (fault _).
Qed.

(** Three records in a quiet world: all three are accepted. *)
Lemma uninterrupted_run_counts_witness :
  three <> []
  /\ noStop (script [])
  /\ (List.length
        (successful
           (results
              (engine
                 (machineOf
                    (startAutomation 3 (script []) three 0 (boot defaultConfig))
                    (boot defaultConfig)))))
      + List.length
          (failed
             (results
                (engine
                   (machineOf
                      (startAutomation 3 (script []) three 0
                         (boot defaultConfig))
                      (boot defaultConfig))))))%nat = List.length three
  /\ currentIndex
       (engine
          (machineOf
             (startAutomation 3 (script []) three 0 (boot defaultConfig))
             (boot defaultConfig)))
     = List.length three.
Proof.
  split; [discriminate|]. split; [now apply script_noStop|].
  apply (uninterrupted_run_counts 3 (script []) three (boot defaultConfig));
    [discriminate | now apply script_noStop | vm_compute; reflexivity].
Defined.

(** A first record accepted at once, and the same record in a world where
    the field is never found, with the default [maxRetries = 3]: four
    attempts, and the entry carries the message of the fourth. *)
Lemma attempts_recorded_witness :
  (exists m',
     processRecord (script []) (started three defaultConfig) = Some (Normal, m')
     /\ successful (results (engine m'))
        = [] ++ [{| index := 0; record := person "Ada" "Lovelace";
                    error := None; attempts := 1 |}]
     /\ failed (results (engine m')) = [])
  /\ (exists m' earlier message,
        processRecord neverFilled (started three defaultConfig)
        = Some (Normal, m')
        /\ failed (results (engine m'))
           = [] ++ [{| index := 0; record := person "Ada" "Lovelace";
                       error := Some message; attempts := 3 + 1 |}]
        /\ successful (results (engine m')) = []
        /\ raised m' = [] ++ map (pair 0%nat) (earlier ++ [message])
        /\ Z.of_nat (List.length (earlier ++ [message])) = (3 + 1)%Z)
  /\ map (fun entry => (error entry, attempts entry))
         (failed
            (results
               (engine
                  (machineOf
                     (processRecord neverFilled (started three defaultConfig))
                     (boot defaultConfig)))))
     = [(Some "Field answer-5 (Email) not found"%string, 4%Z)].
Proof.
  split; [|split].
  - apply (proj1 (attempts_recorded (script []) (started three defaultConfig)
                    (person "Ada" "Lovelace") eq_refl));
      [reflexivity | discriminate | reflexivity].
  - apply (proj1 (proj2 (attempts_recorded neverFilled
                           (started three defaultConfig)
                           (person "Ada" "Lovelace") eq_refl)));
      [reflexivity | discriminate | intros n; reflexivity
      | intros n; reflexivity | intros n; discriminate].
  - vm_compute. reflexivity.
Defined.


(** The scenario played by [threeRecordWorld]. *)
Lemma three_record_scenario_witness :
  exists m',
    startAutomation 3 threeRecordWorld three 0
      (boot (withMaxRetries 1 defaultConfig)) = Some (Normal, m')
    /\ List.length (successful (results (engine m'))) = 2%nat
    /\ List.length (failed (results (engine m'))) = 1%nat
    /\ retries (results (engine m')) = 3%nat
    /\ currentIndex (engine m') = 3%nat.
Proof.
  apply (three_record_scenario threeRecordWorld
           (withMaxRetries 1 defaultConfig));
    [reflexivity
    | now apply script_noStop
    | now apply script_noFault
    | reflexivity
    | vm_compute; discriminate
    | reflexivity
    | vm_compute; discriminate
    | vm_compute; discriminate].
Defined.

(** The first attempt of the first of five records fails and the request
    to stop arrives during the page refresh: the record is left without an
    entry. *)
Lemma stop_while_processing_witness :
  isRunning
    (engine (machineOf (processRecord (script [missingField "answer-5" "Email";
                                                withStop quiet])
                          (started five defaultConfig))
                       (boot defaultConfig))) = false
  /\ entryCount 0
       (engine (machineOf (processRecord (script [missingField "answer-5" "Email";
                                                   withStop quiet])
                             (started five defaultConfig))
                          (boot defaultConfig))) = 0%nat.
Proof.
  split; [reflexivity|].
  apply (proj1 (proj2 (stop_while_processing 4
                         (script [missingField "answer-5" "Email"; withStop quiet])
                         (started five defaultConfig) _
                         (person "Ada" "Lovelace")
                         eq_refl (fun i => eq_refl) eq_refl eq_refl))).
Defined.

(** The request to stop arrives during the wait after the first record. *)
Lemma pacing_wait_runs_full_delay_witness :
  stopRequested (stopInWaitWorld 2%nat) = true
  /\ exists m',
       processRecord stopInWaitWorld (started three defaultConfig)
       = Some (Normal, m')
       /\ now m'
          = now (machineOf (retryLoop 4 stopInWaitWorld
                              (person "Ada" "Lovelace") 0
                              (started three defaultConfig))
                           (boot defaultConfig))
            + timerDelay
                (getRandomDelay defaultConfig (random (stopInWaitWorld 2%nat)))
       /\ isRunning (engine m') = false
       /\ automationLoop 2 stopInWaitWorld m' = Some (Normal, m').
Proof.
  split; [reflexivity|].
  apply (pacing_wait_runs_full_delay 2 stopInWaitWorld
           (started three defaultConfig)
           (machineOf (retryLoop 4 stopInWaitWorld (person "Ada" "Lovelace") 0
                         (started three defaultConfig))
                      (boot defaultConfig))
           (person "Ada" "Lovelace"));
    [reflexivity | vm_compute; reflexivity | reflexivity
    | vm_compute; lia | reflexivity].
Defined.

(** The default configuration, with [Math.random()] returning 0.25. *)
Lemma getRandomDelay_bounds_witness :
  noUnderflow defaultConfig (1 # 4)
  /\ submissionDelay defaultConfig
        * (1 - randomDelayVariation defaultConfig / 2)
        * (1 - Double.pow2 (-50))
     <= getRandomDelay defaultConfig (1 # 4)
     <= submissionDelay defaultConfig
        * (1 + randomDelayVariation defaultConfig / 2)
        * (1 + Double.pow2 (-50)).
Proof.
  assert (N : noUnderflow defaultConfig (1 # 4))
    by (repeat split; right; vm_compute; discriminate).
  split; [exact N|].
  apply (getRandomDelay_bounds defaultConfig (1 # 4));
    [discriminate | split; discriminate | split; [discriminate|reflexivity]
    | discriminate | exact N].
Defined.

(** * Further properties of the engine, the form and the CSV processor *)

Opaque await.

(** ** The entries of a run *)

Lemma loopEnds_within s w r k m o m' errs :
  loopEnds w r k m o m' errs ->
  (s <= currentIndex (engine m))%nat ->
  oneEntryWithin s (engine m) -> oneEntryWithin s (engine m').
Proof.
  intros Hend Hs Inv j. specialize (Inv j).
  unfold loopEnds, entryCount in *.
  destruct Hend as [(_ & Hi & Hs' & Hf)
                   |[(_ & Hi & Hs' & _ & earlier & message & _ & Hf)
                    |(Hi & Hs' & Hf & _)]];
    rewrite Hi, Hs', Hf, ?entriesOf_app, ?length_app;
    [| |exact Inv]; cbn;
    destruct (Nat.eqb_spec (currentIndex (engine m)) j) as [Heq|Hne]; cbn;
    destruct (Nat.leb_spec s j);
    destruct (Nat.ltb_spec j (currentIndex (engine m)));
    destruct (Nat.leb_spec j (currentIndex (engine m)));
    cbn in *; lia.
Qed.

Lemma automationLoop_within (s : nat) (w : World) (fuel : nat) :
  forall m o m',
    automationLoop fuel w m = Some (o, m') ->
    (s <= currentIndex (engine m))%nat ->
    oneEntryWithin s (engine m) -> oneEntryWithin s (engine m').
Proof.
  induction fuel as [|fuel IH]; intros m o m' H Hs Inv;
    cbn -[processRecord Nat.ltb] in H;
    destruct (isRunning (engine m)
              && (currentIndex (engine m) <? List.length (records (engine m)))%nat)
      eqn:C; try discriminate;
    try (injection H as <- <-; exact Inv).
  apply andb_true_iff in C as [_ Clt]. apply Nat.ltb_lt in Clt.
  destruct (nth_error (records (engine m)) (currentIndex (engine m)))
    as [r|] eqn:R; [|apply nth_error_None in R; lia].
  destruct (processRecord w m) as [[o1 m1]|] eqn:P; [|discriminate].
  pose proof (processRecord_spec w m r _ _ R P)
    as (_ & _ & _ & _ & errs & _ & _ & Hend).
  pose proof (loopEnds_within s _ _ _ _ _ _ _ Hend Hs Inv) as Inv1.
  apply loopEnds_counts in Hend.
  destruct o1; [|injection H as <- <-; exact Inv1].
  apply (IH _ _ _ H); [lia|exact Inv1].
Qed.

(** X1. A call of [startAutomation(records, s)] on an idle engine that
    returns or throws leaves [records] as given and [currentIndex] at [s] or
    beyond (and within the records when [s] is); every record from [s] up
    to [currentIndex] has exactly one entry in the two result lists and no
    other record has any, so the lists hold [currentIndex - s] entries. *)
Theorem run_entries_within (fuel : nat) (w : World) (recs : list FormRecord)
  (s : nat) (m : Machine) (o : Outcome) (m' : Machine) :
  isRunning (engine m) = false ->
  startAutomation fuel w recs s m = Some (o, m') ->
  records (engine m') = recs
  /\ (s <= currentIndex (engine m'))%nat
  /\ ((s <= List.length recs)%nat ->
      (currentIndex (engine m') <= List.length recs)%nat)
  /\ oneEntryWithin s (engine m')
  /\ finalized (engine m') = (currentIndex (engine m') - s)%nat.
Proof.
  intros Idle H. unfold startAutomation, navigateToForm in H.
  rewrite Idle in H.
  assert (Inv : oneEntryWithin s
                  (engine (driverStep w (onEngine (beginRun recs s) m)))).
  { intros i. unfold driverStep, entryCount. crunch.
    destruct (Nat.leb_spec s i), (Nat.ltb_spec i s); cbn; lia. }
  destruct (fault _).
  - injection H as <- <-. unfold driverStep, finalized in *.
    split; [crunch; reflexivity|]. split; [crunch; lia|].
    split; [crunch; auto|]. split; [|crunch; lia].
    intros i. specialize (Inv i). unfold entryCount in *. crunch. exact Inv.
  - destruct (automationLoop _ _ _) as [[o3 m3]|] eqn:L; [|discriminate].
    injection H as <- <-.
    pose proof (automationLoop_invariant _ _ _ _ _ L)
      as (_ & Hr & Hle & Hfin & Hlen & _).
    apply (automationLoop_within s) in L; [|unfold driverStep; crunch; lia|exact Inv].
    unfold driverStep, finalized in *. crunch.
    split; [exact Hr|]. split; [exact Hle|]. split; [exact Hlen|].
    split; [|lia].
    intros i. specialize (L i). unfold entryCount in *. crunch. exact L.
Qed.

Lemma ascending_snoc (entries : list Entry) (entry : Entry) :
  ascending entries ->
  Forall (fun a => (index a < index entry)%nat) entries ->
  ascending (entries ++ [entry]).
Proof.
  unfold ascending. induction 1 as [|a l Hl IH Ha]; intros Hlt; cbn.
  - repeat constructor.
  - inversion Hlt as [|? ? Hax Hlx]; subst. constructor; [auto|].
    apply Forall_app. split; [exact Ha|]. constructor; [exact Hax|constructor].
Qed.

Lemma retryLoop_success_attempts (w : World) (r : FormRecord) (gas : nat) :
  forall k m o m' entry,
    retryLoop gas w r k m = Some (o, m') ->
    successful (results (engine m'))
    = successful (results (engine m)) ++ [entry] ->
    (k + 1 <= attempts entry <= maxRetries (config (engine m)) + 1)%Z.
Proof.
  induction gas as [|gas IH]; intros k m o m' entry H S;
    cbn -[await driverStep] in H;
    destruct ((k <=? _)%Z && _) eqn:C; try discriminate;
    try (injection H as <- <-; symmetry in S; now apply app_one_neq in S).
  apply andb_true_iff in C as [Ck Crun]. apply Z.leb_le in Ck.
  unfold driverStep in H.
  destruct (attemptError _ _) as [message|] eqn:A.
  - destruct ((k + 1 <=? _)%Z) eqn:C'.
    + pose proof (handleRetry_machine w
                    (warn message (onEngine countRetry
                                     (await w (took (w (tick m))) m)))) as Hm3.
      destruct (handleRetry w _) as [[|e] m3]; cbn -[await] in Hm3; subst m3.
      * specialize (IH _ _ _ _ entry H). crunch. specialize (IH S). lia.
      * injection H as <- <-. crunch. symmetry in S. now apply app_one_neq in S.
    + injection H as <- <-. crunch. symmetry in S. now apply app_one_neq in S.
  - injection H as <- <-. rewrite freshForm_await in S. crunch.
    apply app_inv_head in S. injection S as <-. cbn. lia.
Qed.

Lemma resultsOk_frame (e e' : Engine) :
  config e' = config e -> records e' = records e ->
  currentIndex e' = currentIndex e -> results e' = results e ->
  resultsOk e -> resultsOk e'.
Proof.
  unfold resultsOk, successEntryOk, failureEntryOk.
  intros -> -> -> ->. auto.
Qed.

Lemma processRecord_resultsOk (w : World) (m : Machine) (r : FormRecord)
  (o : Outcome) (m' : Machine) :
  nth_error (records (engine m)) (currentIndex (engine m)) = Some r ->
  processRecord w m = Some (o, m') ->
  resultsOk (engine m) -> resultsOk (engine m').
Proof.
  intros R P (Hs & Hf & As & Af & Hb).
  pose proof (processRecord_spec w m r _ _ R P)
    as (Hc & Hr & _ & _ & errs & _ & _ & Hend).
  assert (Bound : forall entry,
             successful (results (engine m'))
             = successful (results (engine m)) ++ [entry] ->
             (1 <= attempts entry <= maxRetries (config (engine m)) + 1)%Z).
  { intros entry S. unfold processRecord in P. rewrite R in P.
    destruct (retryLoop _ w r 0 m) as [[[|e] mid]|] eqn:L; try discriminate;
      injection P as <- <-.
    - assert (S' : successful (results (engine mid))
                   = successful (results (engine m)) ++ [entry]).
      { destruct (pace_cases w mid) as [E|(_ & _ & E)]; rewrite E in S;
          crunch; exact S. }
      pose proof (retryLoop_success_attempts _ _ _ _ _ _ _ _ L S'). lia.
    - pose proof (retryLoop_success_attempts _ _ _ _ _ _ _ _ L S). lia. }
  apply Forall_app in Hb as [Hbs Hbf].
  unfold resultsOk, successEntryOk, failureEntryOk, loopEnds in *.
  rewrite Hc, Hr.
  destruct Hend as [(_ & Hi & HS & HF)
                   |[(_ & Hi & HS & _ & earlier & message & _ & HF)
                    |(Hi & HS & HF & _)]]; rewrite Hi, HS, HF.
  - specialize (Bound _ HS). cbn in Bound.
    repeat split; auto.
    + apply Forall_app. split; [exact Hs|]. repeat constructor; cbn; auto; lia.
    + apply ascending_snoc; [exact As|exact Hbs].
    + rewrite <- app_assoc. apply Forall_app. split.
      * eapply Forall_impl; [|exact Hbs]. cbn. intros; lia.
      * constructor; [cbn; lia|].
        eapply Forall_impl; [|exact Hbf]. cbn. intros; lia.
  - repeat split; auto.
    + apply Forall_app. split; [exact Hf|].
      repeat constructor; cbn; eauto.
    + apply ascending_snoc; [exact Af|exact Hbf].
    + rewrite app_assoc. apply Forall_app. split.
      * apply Forall_app. split.
        -- eapply Forall_impl; [|exact Hbs]. cbn. intros; lia.
        -- eapply Forall_impl; [|exact Hbf]. cbn. intros; lia.
      * constructor; [cbn; lia|constructor].
  - repeat split; auto. apply Forall_app. split; assumption.
Qed.

Lemma automationLoop_resultsOk (w : World) (fuel : nat) :
  forall m o m',
    automationLoop fuel w m = Some (o, m') ->
    resultsOk (engine m) -> resultsOk (engine m').
Proof.
  induction fuel as [|fuel IH]; intros m o m' H Inv;
    cbn -[processRecord Nat.ltb] in H;
    destruct (isRunning (engine m)
              && (currentIndex (engine m) <? List.length (records (engine m)))%nat)
      eqn:C; try discriminate;
    try (injection H as <- <-; exact Inv).
  apply andb_true_iff in C as [_ Clt]. apply Nat.ltb_lt in Clt.
  destruct (nth_error (records (engine m)) (currentIndex (engine m)))
    as [r|] eqn:R; [|apply nth_error_None in R; lia].
  destruct (processRecord w m) as [[o1 m1]|] eqn:P; [|discriminate].
  pose proof (processRecord_resultsOk w m r _ _ R P Inv) as Inv1.
  destruct o1; [eauto|injection H as <- <-; exact Inv1].
Qed.

Lemma startAutomation_resultsOk (fuel : nat) (w : World)
  (recs : list FormRecord) (s : nat) (m : Machine) (o : Outcome)
  (m' : Machine) :
  isRunning (engine m) = false ->
  startAutomation fuel w recs s m = Some (o, m') ->
  resultsOk (engine m').
Proof.
  intros Idle H. unfold startAutomation, navigateToForm in H.
  rewrite Idle in H.
  assert (Inv : resultsOk
                  (engine (driverStep w (onEngine (beginRun recs s) m)))).
  { unfold driverStep, resultsOk, ascending. crunch.
    repeat split; constructor. }
  destruct (fault _).
  - injection H as <- <-.
    eapply resultsOk_frame; [| | | |exact Inv]; reflexivity.
  - destruct (automationLoop _ _ _) as [[o3 m3]|] eqn:L; [|discriminate].
    injection H as <- <-.
    apply automationLoop_resultsOk in L; [|exact Inv].
    eapply resultsOk_frame; [| | | |exact L]; reflexivity.
Qed.

Lemma startAutomation_frame (fuel : nat) (w : World)
  (recs : list FormRecord) (s : nat) (m : Machine) (o : Outcome)
  (m' : Machine) :
  isRunning (engine m) = false ->
  startAutomation fuel w recs s m = Some (o, m') ->
  config (engine m') = config (engine m)
  /\ records (engine m') = recs
  /\ isRunning (engine m') = false.
Proof.
  intros Idle H. unfold startAutomation, navigateToForm in H.
  rewrite Idle in H.
  destruct (fault _).
  - injection H as <- <-. unfold driverStep. crunch. auto.
  - destruct (automationLoop _ _ _) as [[o3 m3]|] eqn:L; [|discriminate].
    injection H as <- <-.
    pose proof (automationLoop_invariant _ _ _ _ _ L) as (Hc & Hr & _).
    unfold driverStep in *. crunch. auto.
Qed.

(** X2. After a run, every entry of [results.successful] holds the
    record at its index, no error, and between 1 and [maxRetries + 1]
    attempts; every entry of [results.failed] holds the record at its index,
    an error message, and exactly [maxRetries + 1] attempts. *)
Theorem run_entries_well_formed (fuel : nat) (w : World)
  (recs : list FormRecord) (s : nat) (m : Machine) (o : Outcome)
  (m' : Machine) :
  isRunning (engine m) = false ->
  startAutomation fuel w recs s m = Some (o, m') ->
  (forall entry,
     In entry (successful (results (engine m'))) ->
     nth_error recs (index entry) = Some (record entry)
     /\ error entry = None
     /\ (1 <= attempts entry <= maxRetries (config (engine m)) + 1)%Z)
  /\
  (forall entry,
     In entry (failed (results (engine m'))) ->
     nth_error recs (index entry) = Some (record entry)
     /\ (exists message, error entry = Some message)
     /\ attempts entry = (maxRetries (config (engine m)) + 1)%Z).
Proof.
  intros Idle H.
  pose proof (startAutomation_frame _ _ _ _ _ _ _ Idle H) as (Hc & Hr & _).
  pose proof (startAutomation_resultsOk _ _ _ _ _ _ _ Idle H)
    as (Hs & Hf & _).
  rewrite Forall_forall in Hs, Hf.
  unfold successEntryOk, failureEntryOk in *. rewrite Hc, Hr in *.
  split; auto.
Qed.

(** X3. After a run, each of the two result lists is in strictly
    increasing order of index, and every index in them is below
    [currentIndex]. *)
Theorem run_entries_ascending (fuel : nat) (w : World)
  (recs : list FormRecord) (s : nat) (m : Machine) (o : Outcome)
  (m' : Machine) :
  isRunning (engine m) = false ->
  startAutomation fuel w recs s m = Some (o, m') ->
  ascending (successful (results (engine m')))
  /\ ascending (failed (results (engine m')))
  /\ forall entry,
       In entry (successful (results (engine m'))
                 ++ failed (results (engine m'))) ->
       (index entry < currentIndex (engine m'))%nat.
Proof.
  intros Idle H.
  pose proof (startAutomation_resultsOk _ _ _ _ _ _ _ Idle H)
    as (_ & _ & As & Af & Hb).
  rewrite Forall_forall in Hb. auto.
Qed.

(** X4. When the navigation to the form fails, [startAutomation]
    throws [Navigation failed: ] followed by the message of the error, after
    that one step; the engine is idle again, [currentIndex] is the start
    index and the results are empty: no record is attempted. *)
Theorem navigation_failure_is_fatal (fuel : nat) (w : World)
  (recs : list FormRecord) (s : nat) (m : Machine) (message : string) :
  isRunning (engine m) = false ->
  fault (w (tick m)) = Some message ->
  exists m',
    startAutomation fuel w recs s m
    = Some (Throw ("Navigation failed: " ++ message)%string, m')
    /\ isRunning (engine m') = false
    /\ currentIndex (engine m') = s
    /\ results (engine m') = emptyResults
    /\ raised m' = raised m
    /\ tick m' = S (tick m).
Proof.
  intros Idle F. unfold startAutomation, navigateToForm.
  rewrite Idle. cbn -[await driverStep]. rewrite F.
  eexists. split; [reflexivity|]. unfold driverStep. crunch. auto.
Qed.

(** X5. [resume()] on an idle engine that has records sets
    [isRunning] and then calls [startAutomation], whose guard throws
    [Automation is already running]; the flag stays set, so every later call
    of [startAutomation] throws the same error and every later [resume()]
    does nothing: no record is processed. *)
Theorem resume_never_restarts (fuel : nat) (w : World) (m : Machine) :
  isRunning (engine m) = false ->
  records (engine m) <> [] ->
  resume fuel w m
  = Some (Throw "Automation is already running", onEngine (setRunning true) m)
  /\ (forall fuel' w' recs s,
        startAutomation fuel' w' recs s (onEngine (setRunning true) m)
        = Some (Throw "Automation is already running",
                onEngine (setRunning true) m))
  /\ (forall fuel' w',
        resume fuel' w' (onEngine (setRunning true) m)
        = Some (Normal, onEngine (setRunning true) m)).
Proof.
  intros Idle Recs. unfold resume. rewrite Idle.
  destruct (records (engine m)) eqn:E; [now elim Recs|].
  repeat split.
Qed.

(** With a negative [maxRetries] the retry loop has no turn to take. *)
Lemma processRecord_no_turn (w : World) (m : Machine) (r : FormRecord) :
  (maxRetries (config (engine m)) < 0)%Z ->
  nth_error (records (engine m)) (currentIndex (engine m)) = Some r ->
  processRecord w m = Some (Normal, pace w m).
Proof.
  intros Max R. unfold processRecord. rewrite R.
  replace (Z.to_nat (maxRetries (config (engine m)) + 1)) with 0%nat by lia.
  cbn. replace (0 <=? maxRetries (config (engine m)))%Z with false
    by (symmetry; apply Z.leb_gt; exact Max).
  reflexivity.
Qed.

Lemma automationLoop_no_turn (w : World) (fuel : nat) :
  forall m,
    noStop w ->
    (maxRetries (config (engine m)) < 0)%Z ->
    isRunning (engine m) = true ->
    (currentIndex (engine m) < List.length (records (engine m)))%nat ->
    automationLoop fuel w m = None.
Proof.
  induction fuel as [|fuel IH]; intros m NS Max Run Lt;
    cbn -[processRecord Nat.ltb]; rewrite Run;
    apply Nat.ltb_lt in Lt as Lt'; rewrite Lt'; cbn [andb]; [reflexivity|].
  destruct (nth_error (records (engine m)) (currentIndex (engine m)))
    as [r|] eqn:R; [|apply nth_error_None in R; lia].
  rewrite (processRecord_no_turn w m r Max R).
  destruct (pace_cases w m) as [E|(_ & _ & E)]; rewrite E.
  - apply IH; assumption.
  - apply IH; crunch; auto. rewrite Run, NS. reflexivity.
Qed.

(** X6. With a negative [maxRetries] (the constructor accepts one,
    see [envMaxRetries]), a run in which nobody asks to stop and the
    navigation succeeds never ends when a record is left to process: the
    retry loop is not entered, [currentIndex] stays, and the loop of
    [startAutomation] goes round for ever, whatever the fuel. *)
Theorem negative_maxRetries_never_ends (w : World) (recs : list FormRecord)
  (s : nat) (m : Machine) :
  (maxRetries (config (engine m)) < 0)%Z ->
  noStop w ->
  isRunning (engine m) = false ->
  fault (w (tick m)) = None ->
  (s < List.length recs)%nat ->
  forall fuel, startAutomation fuel w recs s m = None.
Proof.
  intros Max NS Idle NF Lt fuel. unfold startAutomation, navigateToForm.
  rewrite Idle. cbn -[await driverStep automationLoop]. rewrite NF.
  rewrite automationLoop_no_turn; auto; unfold driverStep; crunch; auto.
  now rewrite NS.
Qed.

Lemma accounted_success (e : Engine) (entry : Entry) :
  accountedAttempts (pushSuccessful entry e)
  = (accountedAttempts e + (attempts entry - 1))%Z.
Proof.
  unfold accountedAttempts. cbn.
  assert (F : forall l acc,
             fold_right (fun entry acc => (attempts entry - 1 + acc)%Z) acc l
             = (fold_right (fun entry acc => (attempts entry - 1 + acc)%Z) 0%Z l
                + acc)%Z)
    by (induction l as [|a l IH]; intros acc; cbn; [lia|rewrite IH; lia]).
  rewrite fold_right_app. cbn. rewrite F. lia.
Qed.

Lemma accounted_failure (e : Engine) (entry : Entry) :
  accountedAttempts (pushFailed entry e)
  = (accountedAttempts e + attempts entry)%Z.
Proof.
  unfold accountedAttempts. cbn.
  assert (F : forall l acc,
             fold_right (fun entry acc => (attempts entry + acc)%Z) acc l
             = (fold_right (fun entry acc => (attempts entry + acc)%Z) 0%Z l
                + acc)%Z)
    by (induction l as [|a l IH]; intros acc; cbn; [lia|rewrite IH; lia]).
  rewrite fold_right_app. cbn. rewrite F. lia.
Qed.

Lemma accounted_results (e e' : Engine) :
  successful (results e') = successful (results e) ->
  failed (results e') = failed (results e) ->
  accountedAttempts e' = accountedAttempts e.
Proof. unfold accountedAttempts. now intros -> ->. Qed.

(** What one record adds to the retry counter and to the attempts that the
    entries account for. *)
Lemma processRecord_account (w : World) (m : Machine) (r : FormRecord)
  (o : Outcome) (m' : Machine) :
  nth_error (records (engine m)) (currentIndex (engine m)) = Some r ->
  processRecord w m = Some (o, m') ->
  let surplus e := (Z.of_nat (retries (results e)) - accountedAttempts e)%Z in
  (surplus (engine m) <= surplus (engine m'))%Z
  /\ (o = Normal ->
      isRunning (engine m') = true
      \/ currentIndex (engine m') = S (currentIndex (engine m)) ->
      surplus (engine m') = surplus (engine m)).
Proof.
  intros R P surplus. subst surplus. cbn beta.
  pose proof (processRecord_spec w m r _ _ R P)
    as (_ & _ & _ & _ & errs & _ & Hret & Hend).
  unfold loopEnds in Hend.
  destruct Hend as [(_ & Hi & HS & HF)
                   |[(_ & Hi & HS & Hn & earlier & message & _ & HF)
                    |(Hi & HS & HF & Ho)]].
  - assert (A : accountedAttempts (engine m')
                = accountedAttempts
                    (pushSuccessful
                       {| index := currentIndex (engine m); record := r;
                          error := None;
                          attempts := 0 + Z.of_nat (List.length errs) + 1 |}
                       (engine m)))
      by (apply accounted_results; cbn; assumption).
    rewrite A, accounted_success, Hret. cbn. split; intros; lia.
  - assert (A : accountedAttempts (engine m')
                = accountedAttempts
                    (pushFailed
                       {| index := currentIndex (engine m); record := r;
                          error := Some message;
                          attempts := maxRetries (config (engine m)) + 1 |}
                       (engine m)))
      by (apply accounted_results; cbn; assumption).
    rewrite A, accounted_failure, Hret. cbn. split; intros; lia.
  - rewrite (accounted_results _ _ HS HF), Hret. split; [lia|].
    intros -> [Run|Adv]; [|lia].
    destruct Ho as [Ho|[_ ->]]; [congruence|cbn; lia].
Qed.

Lemma automationLoop_account (w : World) (fuel : nat) :
  forall m o m',
    automationLoop fuel w m = Some (o, m') ->
    let surplus e := (Z.of_nat (retries (results e)) - accountedAttempts e)%Z in
    (surplus (engine m) <= surplus (engine m'))%Z
    /\ (o = Normal ->
        isRunning (engine m') = true
        \/ (List.length (records (engine m')) <= currentIndex (engine m'))%nat ->
        surplus (engine m') = surplus (engine m)).
Proof.
  induction fuel as [|fuel IH]; intros m o m' H surplus;
    cbn -[processRecord Nat.ltb] in H;
    destruct (isRunning (engine m)
              && (currentIndex (engine m) <? List.length (records (engine m)))%nat)
      eqn:C; try discriminate;
    try (injection H as <- <-; split; [lia|reflexivity]).
  apply andb_true_iff in C as [Crun Clt]. apply Nat.ltb_lt in Clt.
  destruct (nth_error (records (engine m)) (currentIndex (engine m)))
    as [r|] eqn:R; [|apply nth_error_None in R; lia].
  destruct (processRecord w m) as [[o1 m1]|] eqn:P; [|discriminate].
  pose proof (processRecord_account w m r _ _ R P) as [Hle Heq].
  pose proof (processRecord_spec w m r _ _ R P)
    as (_ & Hr & _ & _ & errs & _ & _ & Hend).
  apply loopEnds_counts in Hend.
  cbn beta in *. destruct o1.
  - pose proof (automationLoop_invariant _ _ _ _ _ H) as (_ & Hr' & _).
    pose proof (IH _ _ _ H) as [Hle' Heq']. cbn beta in *.
    split; [subst surplus; cbn beta; lia|].
    intros -> Hyp. subst surplus. cbn beta.
    rewrite (Heq' eq_refl Hyp). apply Heq; [reflexivity|].
    destruct (isRunning (engine m1)) eqn:Run1; [now left|right].
    rewrite (automationLoop_idle _ _ _ Run1) in H. injection H as <-.
    destruct Hyp as [Hyp|Hyp]; [congruence|].
    destruct Hend as [[Hi _]|(_ & Hi & _)]; [|exact Hi].
    rewrite Hr in Hyp. lia.
  - injection H as <- <-. split; [exact Hle|discriminate].
Qed.

Lemma automationLoop_raised (w : World) (fuel : nat) :
  forall m o m',
    automationLoop fuel w m = Some (o, m') ->
    (retries (results (engine m')) + List.length (raised m)
     = retries (results (engine m)) + List.length (raised m'))%nat.
Proof.
  induction fuel as [|fuel IH]; intros m o m' H;
    cbn -[processRecord Nat.ltb] in H;
    destruct (isRunning (engine m)
              && (currentIndex (engine m) <? List.length (records (engine m)))%nat)
      eqn:C; try discriminate;
    try (injection H as <- <-; reflexivity).
  apply andb_true_iff in C as [_ Clt]. apply Nat.ltb_lt in Clt.
  destruct (nth_error (records (engine m)) (currentIndex (engine m)))
    as [r|] eqn:R; [|apply nth_error_None in R; lia].
  destruct (processRecord w m) as [[o1 m1]|] eqn:P; [|discriminate].
  pose proof (processRecord_spec w m r _ _ R P)
    as (_ & _ & _ & _ & errs & Hraised & Hret & _).
  assert (Step : (retries (results (engine m1)) + List.length (raised m)
                  = retries (results (engine m)) + List.length (raised m1))%nat)
    by (rewrite Hraised, Hret, length_app, length_map; lia).
  destruct o1; [|injection H as <- <-; exact Step].
  apply IH in H. lia.
Qed.

(** X7. [results.retries] counts every failed attempt of a run: it
    grows by one for each error that the [catch] of [processRecord] logs, and
    is at least the number of failed attempts that the entries tell (all
    attempts but the last of a successful entry, all attempts of a failed
    one); the two are equal when the run returns normally past the last
    record. *)
Theorem retries_account_for_attempts (fuel : nat) (w : World)
  (recs : list FormRecord) (s : nat) (m : Machine) (o : Outcome)
  (m' : Machine) :
  isRunning (engine m) = false ->
  startAutomation fuel w recs s m = Some (o, m') ->
  (accountedAttempts (engine m') <= Z.of_nat (retries (results (engine m'))))%Z
  /\ (retries (results (engine m')) + List.length (raised m))%nat
     = List.length (raised m')
  /\ (o = Normal ->
      (List.length recs <= currentIndex (engine m'))%nat ->
      Z.of_nat (retries (results (engine m')))
      = accountedAttempts (engine m')).
Proof.
  intros Idle H. unfold startAutomation, navigateToForm in H.
  rewrite Idle in H.
  destruct (fault _).
  - injection H as <- <-. unfold driverStep, accountedAttempts. crunch.
    split; [reflexivity|]. split; [reflexivity|]. discriminate.
  - destruct (automationLoop _ _ _) as [[o3 m3]|] eqn:L; [|discriminate].
    injection H as <- <-.
    pose proof (automationLoop_account _ _ _ _ _ L) as [Hle Heq].
    pose proof (automationLoop_raised _ _ _ _ _ L) as Hr.
    pose proof (automationLoop_invariant _ _ _ _ _ L) as (_ & Hrec & _).
    assert (A : accountedAttempts (engine (onEngine (setRunning false) m3))
                = accountedAttempts (engine m3))
      by (apply accounted_results; reflexivity).
    rewrite A. unfold driverStep in *.
    assert (A0 : accountedAttempts
                   (engine (await w (took (w (tick (onEngine (beginRun recs s) m))))
                              (onEngine (beginRun recs s) m))) = 0%Z)
      by (unfold accountedAttempts; crunch; reflexivity).
    cbn beta in *. rewrite A0 in *. crunch.
    split; [lia|]. split; [lia|].
    intros -> Hlen.
    assert (E := Heq eq_refl (or_intror (eq_ind_r (fun l => (List.length l <= _)%nat) Hlen Hrec))).
    lia.
Qed.


(** X9. From any start index [s] from 0 to the number of records, on an
    idle engine with [maxRetries >= 0], when nobody asks to stop and no
    navigation step fails, [startAutomation(records, s)] returns normally
    after processing [records.length - s] records: [currentIndex] is the
    number of records and the results hold one entry for each of them. *)
Theorem run_from_any_index_completes (w : World) (recs : list FormRecord)
  (s : nat) (m : Machine) :
  isRunning (engine m) = false ->
  (0 <= maxRetries (config (engine m)))%Z ->
  noStop w ->
  noFault w ->
  (s <= List.length recs)%nat ->
  exists m',
    startAutomation (List.length recs - s) w recs s m = Some (Normal, m')
    /\ currentIndex (engine m') = List.length recs
    /\ finalized (engine m') = (List.length recs - s)%nat.
Proof.
  intros Idle Max NS NF Le. unfold startAutomation, navigateToForm.
  rewrite Idle, NF. cbn -[await driverStep automationLoop].
  destruct (automationLoop_completes w (List.length recs - s)
              (driverStep w (onEngine (beginRun recs s) m))) as [m3 L];
    auto; [unfold driverStep; crunch; auto ..|].
  rewrite L. eexists. split; [reflexivity|].
  pose proof (automationLoop_invariant _ _ _ _ _ L)
    as (_ & Hr & Hle & Hfin & Hlen & Hns).
  pose proof (automationLoop_exhausts _ _ _ _ L) as Hex.
  specialize (Hns NS). unfold driverStep, finalized in *. crunch.
  rewrite NS in Hns. rewrite Hr in Hex.
  specialize (Hex Hns). specialize (Hlen Le). lia.
Qed.

(** X10. When an attempt fails, a retry is left and the page refresh
    of [handleRetry] fails, the error of the refresh leaves [processRecord]
    and the loop of [startAutomation]: the record gets no entry and
    [currentIndex] stays on it, [results.retries] has grown by one, and the
    error of the attempt is only logged. *)
Theorem refresh_failure_aborts_run (fuel : nat) (w : World) (m : Machine)
  (r : FormRecord) (first refresh : string) :
  nth_error (records (engine m)) (currentIndex (engine m)) = Some r ->
  isRunning (engine m) = true ->
  (1 <= maxRetries (config (engine m)))%Z ->
  attemptError (config (engine m)) (attempt (w (tick m))) = Some first ->
  fault (w (S (tick m))) = Some refresh ->
  exists m',
    automationLoop (S fuel) w m = Some (Throw refresh, m')
    /\ currentIndex (engine m') = currentIndex (engine m)
    /\ successful (results (engine m')) = successful (results (engine m))
    /\ failed (results (engine m')) = failed (results (engine m))
    /\ retries (results (engine m')) = S (retries (results (engine m)))
    /\ raised m' = raised m ++ [(currentIndex (engine m), first)].
Proof.
  intros R Run Max A F.
  assert (Lt : (currentIndex (engine m) < List.length (records (engine m)))%nat)
    by (apply nth_error_Some; congruence).
  apply Nat.ltb_lt in Lt.
  cbn -[processRecord Nat.ltb]. rewrite Run, Lt. cbn [andb].
  unfold processRecord. rewrite R.
  destruct (Z.to_nat (maxRetries (config (engine m)) + 1))
    as [|gas] eqn:G; [lia|].
  cbn -[await driverStep Z.add Z.leb]. rewrite Run, A.
  replace (0 <=? maxRetries (config (engine m)))%Z with true
    by (symmetry; apply Z.leb_le; lia).
  replace (0 + 1 <=? maxRetries (config (engine m)))%Z with true
    by (symmetry; apply Z.leb_le; lia).
  cbn -[await driverStep Z.add Z.leb]. unfold handleRetry, driverStep.
  crunch. rewrite F.
  eexists. split; [reflexivity|]. crunch. auto.
Qed.

(** ** Filling the form *)

Lemma includes_empty (s : string) : JsString.includes EmptyString s = true.
Proof. destruct s; reflexivity. Qed.

Lemma readOption_in (opts : list SelectOption) (o : SelectOption) :
  In o (map readOption opts) ->
  exists o', In o' opts /\ optionValue o' = optionValue o.
Proof.
  intros (o' & <- & Hin)%in_map_iff. exists o'. split; [exact Hin|reflexivity].
Qed.

Lemma orElse_in {A : Type} (a b : option A) (l : list A) (x : A) :
  (forall y, a = Some y -> In y l) ->
  (forall y, b = Some y -> In y l) ->
  orElse a b = Some x -> In x l.
Proof. destruct a; cbn; intros Ha Hb E; [apply Ha|apply Hb]; exact E. Qed.

(** X11. [fillSelectField] on a select element that has options
    always selects the value of one of them, whatever the value asked for
    and the field; on a select element without options it throws the
    [TypeError] of reading [fallbackOption.value]. *)
Theorem fillSelectField_selects_an_option (value fieldName : string) :
  fillSelectField [] value fieldName
  = Fault "Cannot read properties of undefined (reading 'value')"
  /\ forall o opts,
       exists o',
         In o' (o :: opts)
         /\ fillSelectField (o :: opts) value fieldName = Got (optionValue o').
Proof.
  split.
  - unfold fillSelectField. cbn.
    destruct (String.eqb fieldName "Marital Status"); [reflexivity|].
    destruct (String.eqb fieldName "Age"); [reflexivity|].
    destruct (String.eqb fieldName "Group"); reflexivity.
  - intros o opts. unfold fillSelectField.
    set (options := map readOption (o :: opts)).
    assert (Found : forall f x, find f options = Some x -> In x options)
      by (intros f x E; now apply find_some in E).
    assert (First : forall x, hd_error options = Some x -> In x options)
      by (cbn; intros x E; injection E as <-; now left).
    assert (Pick : forall x, In x options ->
                   exists o', In o' (o :: opts)
                              /\ Got (optionValue x) = Got (optionValue o'))
      by (intros x Hx; apply readOption_in in Hx as (o' & Hin & <-); eauto).
    destruct (find _ options) as [x|] eqn:M; [eauto|].
    assert (Fallback : forall word x,
               orElse (findText word options) (hd_error options) = Some x ->
               In x options)
      by (intros word x; apply orElse_in; [apply Found|apply First]).
    assert (Some_first : forall word,
               orElse (findText word options) (hd_error options) <> None)
      by (intros word; unfold orElse; destruct (findText word options);
          cbn; discriminate).
    destruct (String.eqb fieldName "Marital Status");
      [|destruct (String.eqb fieldName "Age");
        [|destruct (String.eqb fieldName "Group")]];
      match goal with
      | |- context [orElse (findText ?word options) _] =>
          destruct (orElse (findText word options) (hd_error options))
            as [x|] eqn:E;
          [apply Fallback in E; eauto | now apply Some_first in E]
      | _ => cbn; exists o; split; [now left|reflexivity]
      end.
Qed.

(** X12. [fillSelectField] selects the first option whose text
    contains the value asked for, case apart, when no earlier option
    contains it in its text or its value: containment, not equality,
    decides. *)
Theorem first_containing_option_wins (before after : list SelectOption)
  (o : SelectOption) (value fieldName : string) :
  Forall (fun o' =>
            JsString.includes (toLowerCase value) (toLowerCase (optionText o'))
            = false
            /\ JsString.includes (toLowerCase value)
                                 (toLowerCase (optionValue o')) = false)
         before ->
  JsString.includes (toLowerCase value) (toLowerCase (optionText o)) = true ->
  fillSelectField (before ++ o :: after) value fieldName = Got (optionValue o).
Proof.
  intros Hb Ho. unfold fillSelectField. rewrite map_app. cbn [map].
  assert (F : find (fun option =>
                      JsString.includes (toLowerCase value) (optionText option)
                      || JsString.includes (toLowerCase value)
                                           (toLowerCase (optionValue option)))
                   (map readOption before ++ readOption o :: map readOption after)
              = Some (readOption o)).
  { induction Hb as [|o' before [Ht Hv] Hb IH]; cbn.
    - rewrite Ho. reflexivity.
    - rewrite Ht, Hv. cbn. exact IH. }
  rewrite F. reflexivity.
Qed.

(** X13. [fillCheckboxField] leaves the type and the value of the
    element alone; a checkbox ends checked exactly when the value is yes,
    true or 1 (case apart), a radio button cannot be unchecked by it, and
    filling the same value again changes nothing. A click is taken to
    toggle a checkbox and to check a radio button. *)
Theorem fillCheckboxField_result (i : Input) (value : string) :
  inputType (fillCheckboxField i value) = inputType i
  /\ inputValue (fillCheckboxField i value) = inputValue i
  /\ inputChecked (fillCheckboxField i value)
     = (if String.eqb (inputType i) "checkbox" then shouldCheck value
        else if String.eqb (inputType i) "radio"
             then inputChecked i || shouldCheck value
             else inputChecked i)
  /\ fillCheckboxField (fillCheckboxField i value) value
     = fillCheckboxField i value.
Proof.
  unfold fillCheckboxField, click.
  generalize (shouldCheck value). intros should.
  destruct i as [type v checked]. cbn [inputType inputValue inputChecked].
  destruct (String.eqb type "checkbox") eqn:C;
    [|destruct (String.eqb type "radio") eqn:R];
    destruct should, checked;
    cbn [Bool.eqb negb orb inputType inputValue inputChecked];
    rewrite ?C, ?R; repeat split; reflexivity.
Qed.

Lemma split_nonempty (sep : ascii) (s : string) : JsString.split sep s <> [].
Proof.
  destruct s as [|c s]; cbn; [discriminate|].
  destruct (Ascii.eqb c sep); [discriminate|].
  destruct (JsString.split sep s); discriminate.
Qed.

Lemma split_trailing (sep : ascii) (s : string) :
  JsString.split sep (s ++ String sep EmptyString)
  = JsString.split sep s ++ [EmptyString].
Proof.
  induction s as [|c s IH]; cbn.
  - now rewrite Ascii.eqb_refl.
  - rewrite IH. destruct (Ascii.eqb c sep); [reflexivity|].
    pose proof (split_nonempty sep s).
    destruct (JsString.split sep s); [contradiction|reflexivity].
Qed.

Lemma matchesTeam_empty (teams : list string) (checkboxValue : string) :
  In EmptyString teams -> matchesTeam teams checkboxValue = true.
Proof.
  intros Hin. unfold matchesTeam. apply existsb_exists.
  exists EmptyString. split; [exact Hin|]. now rewrite includes_empty.
Qed.

Lemma fillSubTeams_aims (subTeamsValue : string) (checkboxes : list Input) :
  subTeamsValue <> EmptyString ->
  Forall (fun box => inputType box = "checkbox"%string) checkboxes ->
  fillSubTeams subTeamsValue checkboxes
  = map (fun box =>
           {| inputType := inputType box; inputValue := inputValue box;
              inputChecked :=
                matchesTeam (teamsOf subTeamsValue)
                            (toLowerCase (inputValue box)) |})
        checkboxes.
Proof.
  intros Hv Hc. unfold fillSubTeams.
  assert (T : JsString.truthy subTeamsValue = true)
    by (destruct subTeamsValue; [now elim Hv|reflexivity]).
  rewrite T. apply map_ext_in. intros box Hin.
  rewrite Forall_forall in Hc. specialize (Hc _ Hin).
  destruct box as [type v' checked]. cbn in Hc. subst type.
  unfold click. cbn.
  destruct (matchesTeam _ (toLowerCase v')), checked; reflexivity.
Qed.

(** X14. For a non-empty value, [fillSubTeams] leaves every sub-team
    checkbox checked exactly when its value and one of the teams of the
    record contain one another (case apart), whatever was checked before;
    filling again changes nothing. *)
Theorem fillSubTeams_checks_matching (subTeamsValue : string)
  (checkboxes : list Input) :
  subTeamsValue <> EmptyString ->
  Forall (fun box => inputType box = "checkbox"%string) checkboxes ->
  fillSubTeams subTeamsValue checkboxes
  = map (fun box =>
           {| inputType := inputType box; inputValue := inputValue box;
              inputChecked :=
                matchesTeam (teamsOf subTeamsValue)
                            (toLowerCase (inputValue box)) |})
        checkboxes
  /\ fillSubTeams subTeamsValue (fillSubTeams subTeamsValue checkboxes)
     = fillSubTeams subTeamsValue checkboxes.
Proof.
  intros Hv Hc. split; [now apply fillSubTeams_aims|].
  rewrite (fillSubTeams_aims _ _ Hv Hc).
  rewrite fillSubTeams_aims; [|exact Hv|].
  - rewrite map_map. reflexivity.
  - apply Forall_map. eapply Forall_impl; [|exact Hc]. cbn. auto.
Qed.

(** X15. A Sub-Teams value that ends in a comma checks every
    sub-team checkbox: the last team is the empty string, which every value
    contains. *)
Theorem trailing_comma_checks_every_box (teams : string)
  (checkboxes : list Input) :
  Forall (fun box => inputType box = "checkbox"%string) checkboxes ->
  Forall (fun box => inputChecked box = true)
         (fillSubTeams (teams ++ ",") checkboxes).
Proof.
  intros Hc.
  assert (Hne : (teams ++ ",")%string <> EmptyString)
    by (destruct teams; discriminate).
  rewrite (fillSubTeams_aims _ _ Hne Hc).
  apply Forall_map. apply Forall_forall. intros box _. cbn.
  apply matchesTeam_empty. unfold teamsOf.
  change ","%string with (String ","%char EmptyString).
  rewrite split_trailing, map_app. apply in_or_app. right. now left.
Qed.

Lemma fieldValue_default (r : FormRecord) (csvField value : string) :
  property defaultValues csvField = Some value ->
  JsString.truthy value = true ->
  exists used, fieldValue r csvField = Some used /\ JsString.truthy used = true.
Proof.
  intros D T. unfold fieldValue.
  destruct (property r csvField) as [v|]; [|eauto].
  destruct (JsString.truthy v) eqn:Tv; eauto.
Qed.

Lemma fillForm_call_count (r : FormRecord) (mapping : string * string) :
  let calls :=
    match fieldValue r (fst mapping) with
    | Some value =>
        if JsString.truthy value then [(snd mapping, value, fst mapping)]
        else []
    | None => []
    end in
  (List.length calls <= 1)%nat
  /\ (forall value,
        property defaultValues (fst mapping) = Some value ->
        JsString.truthy value = true ->
        List.length calls = 1%nat).
Proof.
  cbn zeta. split.
  - destruct (fieldValue r (fst mapping)) as [v|]; [|cbn; lia].
    destruct (JsString.truthy v); cbn; lia.
  - intros value D T.
    destruct (fieldValue_default r _ _ D T) as (used & -> & ->). reflexivity.
Qed.

(** X16. [fillForm] calls [fillField] once for every mapped field
    whose value (of the record, or else the default) is not empty, and for
    no other: between 10 and 13 calls. A non-empty value of the record is
    used as it is, a missing or empty one is replaced by the default, and
    the value passed to [fillSubTeams] is never empty. *)
Theorem fillForm_calls (r : FormRecord) :
  (forall formId value csvField,
     In (formId, value, csvField) (fillFormCalls r) <->
     In (csvField, formId) fieldMappings
     /\ fieldValue r csvField = Some value
     /\ value <> EmptyString)
  /\ (10 <= List.length (fillFormCalls r) <= 13)%nat
  /\ (forall csvField value,
        property r csvField = Some value -> value <> EmptyString ->
        fieldValue r csvField = Some value)
  /\ (forall csvField,
        property r csvField = None \/ property r csvField = Some EmptyString ->
        fieldValue r csvField = property defaultValues csvField)
  /\ (exists teams, subTeamsOf r = Some teams /\ teams <> EmptyString).
Proof.
  split; [|split; [|split; [|split]]].
  - intros formId value csvField. unfold fillFormCalls.
    rewrite in_flat_map. split.
    + intros ([f id] & Hin & Hcall). cbn [fst snd] in Hcall.
      destruct (fieldValue r f) as [v|] eqn:V; [|destruct Hcall].
      destruct (JsString.truthy v) eqn:T; [|destruct Hcall].
      destruct Hcall as [E|[]]. injection E as <- <- <-.
      split; [exact Hin|]. split; [exact V|]. now destruct v.
    + intros (Hin & V & Hne). exists (csvField, formId).
      split; [exact Hin|]. cbn [fst snd]. rewrite V.
      destruct value; [now elim Hne|]. now left.
  - unfold fillFormCalls, fieldMappings. cbn [flat_map].
    rewrite !length_app. cbn [List.length].
    repeat match goal with
           | |- context [List.length
                           (match fieldValue r (fst ?mapping) with
                            | Some _ => _ | None => _ end)] =>
               let L := fresh "L" in
               let D := fresh "D" in
               destruct (fillForm_call_count r mapping) as [L D];
               cbn zeta in L, D;
               try (specialize (D _ eq_refl eq_refl));
               revert L D;
               generalize (List.length
                             (match fieldValue r (fst mapping) with
                              | Some value =>
                                  if JsString.truthy value
                                  then [(snd mapping, value, fst mapping)]
                                  else []
                              | None => []
                              end));
               intros ? L D
           end.
    lia.
  - intros csvField value P Hne. unfold fieldValue. rewrite P.
    destruct value; [now elim Hne|reflexivity].
  - intros csvField [P|P]; unfold fieldValue; rewrite P; reflexivity.
  - destruct (fieldValue_default r "Sub-Teams" "USHERS" eq_refl eq_refl)
      as (used & E & T).
    exists used. split; [exact E|]. now destruct used.
Qed.

(** ** The CSV processor *)

Lemma digitsOf_digits (s : string) :
  forall c rest, digitsOf s = String c rest -> isDigit c = true.
Proof.
  induction s as [|a s IH]; cbn; intros c rest E; [discriminate|].
  destruct (isDigit a) eqn:D; [|eauto]. injection E as <- _. exact D.
Qed.

Lemma digitsOf_no_plus (s : string) : String.prefix "+" (digitsOf s) = false.
Proof.
  destruct (digitsOf s) as [|c rest] eqn:E; [reflexivity|].
  apply digitsOf_digits in E. cbn [String.prefix].
  destruct (ascii_dec "+" c) as [<-|]; [discriminate|reflexivity].
Qed.

Lemma digitsOf_allChars (s : string) : allChars isDigit (digitsOf s) = true.
Proof.
  induction s as [|c s IH]; cbn; [reflexivity|].
  destruct (isDigit c) eqn:D; [cbn; now rewrite D|exact IH].
Qed.

(** X17. [validatePhoneNumber] throws exactly when the number has
    fewer than 10 or more than 15 digits; otherwise it returns a plus sign
    followed by digits only: the digits of the input, with 234 put in front
    unless they start with it. The tests on a leading plus sign never
    succeed. *)
Theorem validatePhoneNumber_shape (phone field : string) :
  let digits := digitsOf phone in
  validatePhoneNumber phone field
  = (if ((String.length digits <? 10) || (15 <? String.length digits))%nat
     then Fault ("Invalid phone number format: " ++ phone)%string
     else Got ("+" ++ (if String.prefix "234" digits then digits
                       else "234" ++ digits))%string)
  /\ allChars isDigit
       (if String.prefix "234" digits then digits else "234" ++ digits)%string
     = true.
Proof.
  cbn zeta. unfold validatePhoneNumber.
  rewrite digitsOf_no_plus.
  pose proof (digitsOf_allChars phone) as D.
  destruct (String.prefix "234" (digitsOf phone)) eqn:P; cbn [negb andb];
    (split; [|exact D]).
  - reflexivity.
  - destruct (_ || _); [reflexivity|].
    destruct (String.length (digitsOf phone) =? 10)%nat; reflexivity.
Qed.

Lemma property_assign (obj : list (string * string)) (key value key' : string) :
  property (assign obj key value) key'
  = if String.eqb key key' then Some value else property obj key'.
Proof.
  induction obj as [|[name old] more IH]; cbn.
  - reflexivity.
  - destruct (String.eqb_spec name key) as [->|Hne]; cbn.
    + destruct (String.eqb_spec key key'); reflexivity.
    + rewrite IH. destruct (String.eqb_spec name key') as [->|];
        [|reflexivity].
      destruct (String.eqb_spec key key') as [->|]; [now elim Hne|reflexivity].
Qed.

Lemma property_In (obj : list (string * string)) (key value : string) :
  property obj key = Some value -> In (key, value) obj.
Proof.
  induction obj as [|[name old] more IH]; cbn; [discriminate|].
  destruct (String.eqb_spec name key) as [->|]; [|auto].
  intros E. injection E as <-. now left.
Qed.

Lemma property_None (obj : list (string * string)) (key : string) :
  property obj key = None <-> ~ In key (map fst obj).
Proof.
  induction obj as [|[name old] more IH]; cbn; [tauto|].
  destruct (String.eqb_spec name key) as [->|]; [|tauto].
  split; [discriminate|]. intros H. elim H. now left.
Qed.

Lemma cleanFields_listed (entries : list (string * string)) :
  forall record record',
    cleanFields entries record = Got record' ->
    (forall key value, property record key = Some value -> listed key = true) ->
    forall key value, property record' key = Some value -> listed key = true.
Proof.
  induction entries as [|[field value] more IH]; intros record record' H Inv;
    cbn -[arrayIncludes requiredFields optionalFields fieldValidators] in H.
  - injection H as <-. exact Inv.
  - fold (listed field) in H.
    destruct (listed field) eqn:L; [|eauto].
    assert (Step : forall cleaned key v,
               property (assign record field cleaned) key = Some v ->
               listed key = true).
    { intros cleaned key v. rewrite property_assign.
      destruct (String.eqb_spec field key) as [<-|]; [auto|apply Inv]. }
    destruct (_ || _); [|eauto].
    destruct (fieldValidators field) as [validator|]; [|eauto].
    destruct (validator _ field); [discriminate|eauto].
Qed.

(** X18. A record that [validateRecord] returns has no field but
    the required and the optional ones: the columns Gender, Cell Name and
    Name of Cell of the row are dropped. *)
Theorem validateRecord_keeps_listed_fields (data : list (string * string))
  (record : FormRecord) :
  validateRecord data = Got record ->
  (forall key value,
     property record key = Some value ->
     In key (requiredFields ++ optionalFields))
  /\ property record "Gender" = None
  /\ property record "Cell Name" = None
  /\ property record "Name of Cell" = None.
Proof.
  intros H. unfold validateRecord in H.
  destruct (find _ requiredFields); [discriminate|].
  pose proof (cleanFields_listed _ _ _ H) as K.
  assert (K' : forall key value,
             property record key = Some value -> listed key = true)
    by (apply K; cbn; discriminate).
  assert (Out : forall key, listed key = false -> property record key = None).
  { intros key L. destruct (property record key) eqn:P; [|reflexivity].
    apply K' in P. congruence. }
  split; [|repeat split; now apply Out].
  intros key value P. apply K' in P. unfold listed, arrayIncludes in P.
  rewrite <- existsb_app in P. apply existsb_exists in P as (x & Hin & E).
  apply String.eqb_eq in E. now subst.
Qed.

(** X19. For a record that comes from [validateRecord], [fillForm]
    always enters the defaults Male and Test Cell in the fields of Gender
    and Cell Name, whatever the row said. *)
Theorem csv_gender_and_cell_never_reach_the_form
  (data : list (string * string)) (record : FormRecord) :
  validateRecord data = Got record ->
  In ("answer-8", "Male", "Gender")%string (fillFormCalls record)
  /\ In ("answer-12", "Test Cell", "Cell Name")%string (fillFormCalls record)
  /\ (forall value,
        In ("answer-8", value, "Gender")%string (fillFormCalls record) ->
        value = "Male"%string)
  /\ (forall value,
        In ("answer-12", value, "Cell Name")%string (fillFormCalls record) ->
        value = "Test Cell"%string).
Proof.
  intros H. unfold validateRecord in H.
  destruct (find _ requiredFields); [discriminate|].
  pose proof (cleanFields_listed _ _ _ H) as K.
  assert (Out : forall key, listed key = false -> property record key = None).
  { intros key L. destruct (property record key) eqn:P; [|reflexivity].
    apply K in P; [congruence|cbn; discriminate]. }
  assert (G : fieldValue record "Gender" = Some "Male"%string)
    by (unfold fieldValue; now rewrite (Out "Gender"%string eq_refl)).
  assert (C : fieldValue record "Cell Name" = Some "Test Cell"%string)
    by (unfold fieldValue; now rewrite (Out "Cell Name"%string eq_refl)).
  assert (Calls : forall formId value csvField,
             In (formId, value, csvField) (fillFormCalls record) <->
             In (csvField, formId) fieldMappings
             /\ fieldValue record csvField = Some value
             /\ JsString.truthy value = true).
  { intros formId value csvField. unfold fillFormCalls.
    rewrite in_flat_map. split.
    - intros ([f id] & Hin & Hcall). cbn [fst snd] in Hcall.
      destruct (fieldValue record f) as [v|] eqn:V; [|destruct Hcall].
      destruct (JsString.truthy v) eqn:T; [|destruct Hcall].
      destruct Hcall as [E|[]]. injection E as <- <- <-. auto.
    - intros (Hin & V & T). exists (csvField, formId).
      split; [exact Hin|]. cbn [fst snd]. rewrite V, T. now left. }
  repeat split.
  - apply Calls. repeat split; [cbn; tauto|exact G].
  - apply Calls. repeat split; [cbn; tauto|exact C].
  - intros value (_ & V & _)%Calls. congruence.
  - intros value (_ & V & _)%Calls. congruence.
Qed.

Lemma toLowerCase_nonempty (s : string) :
  s <> EmptyString -> toLowerCase s <> EmptyString.
Proof. destruct s; [tauto|discriminate]. Qed.

(** No validator turns a value into the empty string. *)
Lemma validator_nonempty (field value cleaned : string)
  (validator : string -> string -> Query string) :
  fieldValidators field = Some validator ->
  validator value field = Got cleaned ->
  value <> EmptyString -> cleaned <> EmptyString.
Proof.
  unfold fieldValidators. intros V C Hne.
  repeat match type of V with
         | (if ?b then _ else _) = _ => destruct b
         end;
    try discriminate; injection V as <-.
  - unfold validateEmail in C. destruct (Regex.test _ _); [|discriminate].
    injection C as <-. now apply toLowerCase_nonempty.
  - unfold validatePhoneNumber in C.
    repeat match type of C with
           | (if ?b then _ else _) = _ => destruct b
           end;
      try discriminate; injection C as <-; try discriminate.
    rewrite digitsOf_no_plus. discriminate.
  - unfold validateName in C.
    destruct (_ <? _)%nat; [discriminate|].
    destruct (negb _); [discriminate|]. now injection C as <-.
  - unfold validateName in C.
    destruct (_ <? _)%nat; [discriminate|].
    destruct (negb _); [discriminate|]. now injection C as <-.
  - now injection C as <-.
  - unfold validateBirthday in C. destruct (Regex.test _ _); [|discriminate].
    now injection C as <-.
  - unfold validateMaritalStatus in C. destruct (mentionsOneOf _ _);
      [|discriminate]. now injection C as <-.
  - unfold validateGender in C. destruct (mentionsOneOf _ _);
      [|discriminate]. now injection C as <-.
  - now injection C as <-.
Qed.

Lemma cleanFields_untouched (entries : list (string * string)) (key : string) :
  forall record record',
    cleanFields entries record = Got record' ->
    ~ In key (map fst entries) ->
    property record' key = property record key.
Proof.
  induction entries as [|[field value] more IH]; intros record record' H Hout;
    cbn -[arrayIncludes requiredFields optionalFields fieldValidators] in H.
  - now injection H as <-.
  - cbn in Hout.
    assert (Hne : String.eqb field key = false)
      by (apply String.eqb_neq; tauto).
    assert (Hm : ~ In key (map fst more)) by tauto.
    assert (Step : forall cleaned,
               property (assign record field cleaned) key = property record key)
      by (intros cleaned; now rewrite property_assign, Hne).
    destruct (_ || _); [|eauto].
    destruct (_ || _); [|eauto].
    destruct (fieldValidators field) as [validator|].
    + destruct (validator _ field); [discriminate|].
      rewrite (IH _ _ H Hm). apply Step.
    + rewrite (IH _ _ H Hm). apply Step.
Qed.

Lemma cleanFields_required (entries : list (string * string)) :
  forall record record' field value,
    cleanFields entries record = Got record' ->
    NoDup (map fst entries) ->
    In (field, value) entries ->
    arrayIncludes requiredFields field = true ->
    JsString.trim value <> EmptyString ->
    exists cleaned,
      property record' field = Some cleaned /\ cleaned <> EmptyString.
Proof.
  induction entries as [|[f v] more IH];
    intros record record' field value H ND Hin Req Hne; [destruct Hin|].
  cbn [map fst] in ND. inversion ND as [|? ? Hout ND']; subst.
  destruct Hin as [E|Hin].
  - injection E as -> ->.
    cbn -[arrayIncludes requiredFields optionalFields fieldValidators] in H.
    rewrite Req in H. cbn [orb] in H.
    destruct (fieldValidators field) as [validator|] eqn:V.
    + destruct (validator _ field) as [|cleaned] eqn:C; [discriminate|].
      exists cleaned.
      rewrite (cleanFields_untouched _ _ _ _ H Hout), property_assign,
        String.eqb_refl.
      split; [reflexivity|]. exact (validator_nonempty _ _ _ _ V C Hne).
    + exists (JsString.trim value).
      rewrite (cleanFields_untouched _ _ _ _ H Hout), property_assign,
        String.eqb_refl. auto.
  - cbn -[arrayIncludes requiredFields optionalFields fieldValidators] in H.
    destruct (_ || _); [|eauto].
    destruct (_ || _); [|eauto].
    destruct (fieldValidators f) as [validator|]; [|eauto].
    destruct (validator _ f); [discriminate|eauto].
Qed.

Lemma assign_keys_new (obj : list (string * string)) (key value : string) :
  ~ In key (map fst obj) ->
  map fst (assign obj key value) = map fst obj ++ [key].
Proof.
  induction obj as [|[name old] more IH]; cbn; intros Hout; [reflexivity|].
  destruct (String.eqb_spec name key) as [->|]; [tauto|].
  cbn. rewrite IH; tauto.
Qed.

Lemma normalizeHeaders_NoDup (data : list (string * string)) :
  NoDup (map fst data) -> NoDup (map fst (normalizeHeaders data)).
Proof.
  intros ND. unfold normalizeHeaders.
  destruct (property data "Name of Cell"); [|exact ND].
  destruct (property data "Cell Name") eqn:P; [exact ND|].
  apply property_None in P. rewrite assign_keys_new by exact P.
  apply NoDup_app; [exact ND|repeat constructor; tauto|].
  intros x Hx [<-|[]]. contradiction.
Qed.

Lemma call_made (r : FormRecord) (mapping : string * string) (value : string) :
  fieldValue r (fst mapping) = Some value ->
  value <> EmptyString ->
  List.length
    (match fieldValue r (fst mapping) with
     | Some value =>
         if JsString.truthy value then [(snd mapping, value, fst mapping)]
         else []
     | None => []
     end) = 1%nat.
Proof. intros -> Hne. destruct value; [now elim Hne|reflexivity]. Qed.

(** X20. A record that [validateRecord] returns for a row with
    distinct column names has a non-empty value for every required field,
    and [fillForm] calls [fillField] for all 13 mapped fields. *)
Theorem validated_record_fills_every_field (data : list (string * string))
  (record : FormRecord) :
  NoDup (map fst data) ->
  validateRecord data = Got record ->
  (forall field,
     In field requiredFields ->
     exists value, property record field = Some value /\ value <> EmptyString)
  /\ List.length (fillFormCalls record) = 13%nat.
Proof.
  intros ND H. unfold validateRecord in H.
  apply normalizeHeaders_NoDup in ND.
  set (data' := normalizeHeaders data) in *.
  destruct (find (missing data') requiredFields) eqn:M; [discriminate|].
  assert (Req : forall field,
             In field requiredFields ->
             exists value,
               property record field = Some value /\ value <> EmptyString).
  { intros field Hin.
    pose proof (find_none _ _ M _ Hin) as Hm. unfold missing in Hm.
    destruct (property data' field) as [value|] eqn:P; [|discriminate].
    apply orb_false_iff in Hm as [_ Ht]. apply String.eqb_neq in Ht.
    apply property_In in P.
    apply (cleanFields_required _ _ _ _ _ H ND P); [|exact Ht].
    unfold arrayIncludes. apply existsb_exists. exists field.
    split; [exact Hin|apply String.eqb_refl]. }
  split; [exact Req|].
  assert (Own : forall field,
             In field requiredFields ->
             exists value,
               fieldValue record field = Some value /\ value <> EmptyString).
  { intros field Hin. destruct (Req field Hin) as (value & P & Hne).
    exists value. split; [|exact Hne]. unfold fieldValue. rewrite P.
    destruct value; [now elim Hne|reflexivity]. }
  destruct (Own "Title"%string) as (t & Vt & Nt); [cbn; tauto|].
  destruct (Own "First Name"%string) as (f & Vf & Nf); [cbn; tauto|].
  destruct (Own "Last Name"%string) as (l & Vl & Nl); [cbn; tauto|].
  unfold fillFormCalls, fieldMappings. cbn [flat_map].
  rewrite !length_app. cbn [List.length].
  rewrite (call_made record ("Title", "answer-0")%string t Vt Nt).
  rewrite (call_made record ("First Name", "answer-1")%string f Vf Nf).
  rewrite (call_made record ("Last Name", "answer-2")%string l Vl Nl).
  repeat match goal with
         | |- context [List.length
                         (match fieldValue record (fst ?mapping) with
                          | Some _ => _ | None => _ end)] =>
             rewrite (proj2 (fillForm_call_count record mapping) _
                        eq_refl eq_refl)
         end.
  reflexivity.
Qed.

Lemma append_empty (s1 s2 : string) :
  (s1 ++ s2)%string = EmptyString -> s1 = EmptyString /\ s2 = EmptyString.
Proof. destruct s1; cbn; [auto|discriminate]. Qed.

Lemma nullable_Matches (r : Regex.t) :
  Regex.nullable r = true <-> Matches r EmptyString.
Proof.
  induction r as [|member|r1 IH1 r2 IH2|r1 IH1 r2 IH2|r IH]; cbn.
  - split; [constructor|reflexivity].
  - split; [discriminate|]. inversion 1.
  - rewrite andb_true_iff, IH1, IH2. split.
    + intros [H1 H2]. exact (MatchCat _ _ _ _ H1 H2).
    + intros H. inversion H; subst.
      match goal with
      | E : (_ ++ _)%string = EmptyString |- _ =>
          apply append_empty in E as [-> ->]
      end. auto.
  - rewrite orb_true_iff, IH1, IH2. split.
    + intros [H|H]; [now apply MatchAltL|now apply MatchAltR].
    + inversion 1; subst; auto.
  - split; [constructor|reflexivity].
Qed.

(** A match of [Star r] on a string that starts with [c] begins with a
    match of [r] on a string that starts with [c]. *)
Lemma star_head (r : Regex.t) (c : ascii) (s : string) :
  Matches (Regex.Star r) (String c s) ->
  exists s1 s2,
    s = (s1 ++ s2)%string
    /\ Matches r (String c s1) /\ Matches (Regex.Star r) s2.
Proof.
  intros H. remember (Regex.Star r) as star eqn:Es.
  remember (String c s) as text eqn:Et.
  induction H as [| | | | | |r' s1 s2 H1 _ H2 IH2]; try discriminate.
  injection Es as ->. destruct s1 as [|c1 s1]; cbn in Et.
  - apply IH2; [reflexivity|exact Et].
  - injection Et as -> <-. eauto.
Qed.

(** A match of [Cat r1 r2] on a string that starts with [c]: either [r1]
    matches a string that starts with [c], or [r1] matches the empty
    string and [r2] the whole. *)
Lemma cat_head (r1 r2 : Regex.t) (c : ascii) (s : string) :
  Matches (Regex.Cat r1 r2) (String c s) ->
  (exists s1 s2,
     s = (s1 ++ s2)%string /\ Matches r1 (String c s1) /\ Matches r2 s2)
  \/ (Matches r1 EmptyString /\ Matches r2 (String c s)).
Proof.
  intros H. inversion H as [| |? ? s1 s2 H1 H2| | | |]; subst.
  destruct s1 as [|c1 s1].
  - right. cbn in *. subst. auto.
  - left. cbn in *.
    match goal with
    | E : String _ _ = String _ _ |- _ => injection E as -> <-
    end. eauto.
Qed.

Lemma derive_Matches (r : Regex.t) :
  forall c s,
    Matches r (String c s)
    <-> exists d, Regex.derive c r = Some d /\ Matches d s.
Proof.
  induction r as [|member|r1 IH1 r2 IH2|r1 IH1 r2 IH2|r IH]; intros c s; cbn.
  - split; [inversion 1|intros (d & E & _); discriminate].
  - split.
    + intros H. inversion H; subst.
      match goal with Hm : member c = true |- _ => rewrite Hm end.
      eexists. split; [reflexivity|constructor].
    + intros (d & E & Hd). destruct (member c) eqn:Hm; [|discriminate].
      injection E as <-. inversion Hd; subst. now constructor.
  - split.
    + intros [(s1 & s2 & -> & H1 & H2)|[H1 H2]]%cat_head.
      * apply IH1 in H1 as (d1 & E1 & Hd1). rewrite E1. cbn.
        assert (Hcat : Matches (Regex.Cat d1 r2) (s1 ++ s2))
          by now constructor.
        destruct (Regex.nullable r1); [|eauto].
        destruct (Regex.derive c r2);
          (eexists; split; [reflexivity|]); [now apply MatchAltL|exact Hcat].
      * apply nullable_Matches in H1. rewrite H1.
        apply IH2 in H2 as (d2 & E2 & Hd2). rewrite E2.
        destruct (Regex.derive c r1) as [d1|]; cbn.
        -- eexists. split; [reflexivity|]. now apply MatchAltR.
        -- eauto.
    + intros (d & E & Hd).
      assert (Left : forall d1,
                 Regex.derive c r1 = Some d1 ->
                 Matches (Regex.Cat d1 r2) s ->
                 Matches (Regex.Cat r1 r2) (String c s)).
      { intros d1 E1 Hm.
        inversion Hm as [| |? ? s1 s2 H1 H2| | | |]; subst.
        change (String c (s1 ++ s2)) with (String c s1 ++ s2)%string.
        constructor; [|exact H2]. apply IH1. eauto. }
      assert (Right : forall d2,
                 Regex.nullable r1 = true ->
                 Regex.derive c r2 = Some d2 ->
                 Matches d2 s ->
                 Matches (Regex.Cat r1 r2) (String c s)).
      { intros d2 N E2 Hm.
        change (String c s) with (EmptyString ++ String c s)%string.
        constructor; [now apply nullable_Matches|]. apply IH2. eauto. }
      destruct (Regex.derive c r1) as [d1|] eqn:E1; cbn in E;
        destruct (Regex.nullable r1) eqn:N;
        try destruct (Regex.derive c r2) as [d2|] eqn:E2;
        try discriminate; injection E as <-; eauto.
      inversion Hd; subst; eauto.
  - split.
    + intros H. inversion H; subst.
      * match goal with
        | H1 : Matches r1 _ |- _ => apply IH1 in H1 as (d1 & -> & Hd1)
        end.
        destruct (Regex.derive c r2);
          (eexists; split; [reflexivity|]); [now apply MatchAltL|exact Hd1].
      * match goal with
        | H2 : Matches r2 _ |- _ => apply IH2 in H2 as (d2 & -> & Hd2)
        end.
        destruct (Regex.derive c r1);
          (eexists; split; [reflexivity|]); [now apply MatchAltR|exact Hd2].
    + intros (d & E & Hd).
      destruct (Regex.derive c r1) as [d1|] eqn:E1;
        destruct (Regex.derive c r2) as [d2|] eqn:E2;
        try discriminate; injection E as <-.
      * inversion Hd; subst;
          [apply MatchAltL; apply IH1|apply MatchAltR; apply IH2]; eauto.
      * apply MatchAltL. apply IH1. eauto.
      * apply MatchAltR. apply IH2. eauto.
  - split.
    + intros H. apply star_head in H as (s1 & s2 & -> & H1 & H2).
      apply IH in H1 as (d1 & -> & Hd1). cbn.
      eexists. split; [reflexivity|]. now constructor.
    + intros (d & E & Hd).
      destruct (Regex.derive c r) as [d1|] eqn:E1; [|discriminate].
      injection E as <-.
      inversion Hd as [| |? ? s1 s2 H1 H2| | | |]; subst.
      change (String c (s1 ++ s2)) with (String c s1 ++ s2)%string.
      constructor; [|exact H2]. apply IH. eauto.
Qed.

(** [Regex.test] decides matching. *)
Lemma test_Matches (s : string) :
  forall r, Regex.test r s = true <-> Matches r s.
Proof.
  induction s as [|c s IH]; intros r; cbn.
  - apply nullable_Matches.
  - rewrite derive_Matches. split.
    + destruct (Regex.derive c r) as [d|]; [|discriminate].
      intros H. exists d. split; [reflexivity|now apply IH].
    + intros (d & -> & Hd). now apply IH.
Qed.

Lemma digit_not_letter (c : ascii) : isDigit c = true -> isLetter c = false.
Proof.
  destruct c as [[] [] [] [] [] [] [] []]; cbn; intros H;
    try reflexivity; discriminate.
Qed.

Lemma digit_not_separator (c : ascii) :
  isDigit c = true -> isDateSeparator c = false.
Proof.
  destruct c as [[] [] [] [] [] [] [] []]; cbn; intros H;
    try reflexivity; discriminate.
Qed.

Lemma letter_not_separator (c : ascii) :
  isLetter c = true -> isDateSeparator c = false.
Proof.
  destruct c as [[] [] [] [] [] [] [] []]; cbn; intros H;
    try reflexivity; discriminate.
Qed.

(** An accepted birthday starts with one or two digits and a separator. *)
Lemma birthday_head (s : string) :
  Matches birthdayRegex s ->
  exists d1 sep rest,
    isDigit d1 = true /\ isDateSeparator sep = true
    /\ (s = String d1 (String sep rest)
        \/ exists d2, isDigit d2 = true
                      /\ s = String d1 (String d2 (String sep rest))).
Proof.
  unfold birthdayRegex, Regex.opt. intros H.
  inversion H as [| |? ? day s' Hday Hrest| | | |]; subst.
  inversion Hrest as [| |? ? sep s'' Hsep _| | | |]; subst.
  inversion Hsep as [|? c Hc| | | | |]; subst.
  inversion Hday as [| |? ? a b Ha Hb| | | |]; subst.
  inversion Ha as [|? d1 Hd1| | | | |]; subst.
  exists d1, c, s''. split; [exact Hd1|]. split; [exact Hc|].
  inversion Hb as [| | |? ? ? Hd|? ? ? He| |]; subst.
  - inversion Hd as [|? d2 Hd2| | | | |]; subst. right. exists d2. auto.
  - inversion He; subst. left. reflexivity.
Qed.

(** X21. [validateBirthday] rejects every birthday in which a
    letter follows the leading digits, such as [15th March 1985], the
    birthday of the row of [generateSampleCSV], and [1st January], the
    default of the engine. *)
Theorem ordinal_birthday_is_rejected (day rest field : string) (c : ascii) :
  allChars isDigit day = true ->
  isLetter c = true ->
  validateBirthday (day ++ String c rest) field
  = Fault ("Invalid birthday format: " ++ (day ++ String c rest)
           ++ ". Use DD/MM/YYYY or similar")%string.
Proof.
  intros Hday Hc. unfold validateBirthday.
  destruct (Regex.test birthdayRegex (day ++ String c rest)) eqn:T;
    [|reflexivity].
  exfalso. apply test_Matches in T.
  apply birthday_head in T
    as (d1 & sep & tail & Hd1 & Hsep & [E|(d2 & Hd2 & E)]).
  - destruct day as [|a [|b day]]; cbn in E, Hday; inversion E; subst.
    + rewrite (digit_not_letter _ Hd1) in Hc. discriminate.
    + rewrite (letter_not_separator _ Hc) in Hsep. discriminate.
    + apply andb_true_iff in Hday as [_ [Hb _]%andb_true_iff].
      rewrite (digit_not_separator _ Hb) in Hsep. discriminate.
  - destruct day as [|a [|b [|x day]]]; cbn in E, Hday; inversion E; subst.
    + rewrite (digit_not_letter _ Hd1) in Hc. discriminate.
    + rewrite (digit_not_letter _ Hd2) in Hc. discriminate.
    + rewrite (letter_not_separator _ Hc) in Hsep. discriminate.
    + apply andb_true_iff in Hday
        as [_ [_ [Hx _]%andb_true_iff]%andb_true_iff].
      rewrite (digit_not_separator _ Hx) in Hsep. discriminate.
Qed.

(** ** Success detection: what is thrown *)

(** X22. [waitForSubmissionSuccess] throws no validation error of its
    own. When no error of the driver has a message that contains
    [Form validation error], nothing leaves the method, whatever the page
    shows: on a page with error elements the call of [page.evaluate] fails
    before the [throw], and the failure is swallowed with the rest; such a
    page, with no success signal, ends in the [catch] block and counts as
    a success. *)
Theorem detection_never_throws (cfg : Config) (pg : PageState) :
  Forall (fun e => JsString.includes "Form validation error" e = false)
         (driverFaults pg) ->
  thrown (waitForSubmissionSuccess cfg pg) = None
  /\ forall indicators values element elements,
       successIndicators pg = Got indicators ->
       inputValues pg = Got values ->
       (0 <? indicators)%nat || hasUrlChanged cfg pg || formCleared values
       = false ->
       errorElements pg = Got (element :: elements) ->
       waitForSubmissionSuccess cfg pg
       = if JsString.includes "Navigating frame was detached"
                              (evaluateFault pg)
         then FrameDetached
         else CheckFailed (evaluateFault pg).
Proof.
  intros F. rewrite Forall_forall in F.
  assert (C : forall e, In e (driverFaults pg) -> thrown (caught e) = None).
  { intros e Hin. unfold caught. rewrite (F e Hin).
    now destruct (JsString.includes "Navigating frame was detached" e). }
  assert (L : thrown
                match submitButton pg with
                | Fault e => caught e
                | Got None => ButtonMissing
                | Got (Some btn) =>
                    if disabled btn || displayNone btn then ButtonDisabled
                    else NoClearIndicator
                end = None).
  { unfold driverFaults in C.
    destruct (submitButton pg) as [e|[btn|]]; [| |reflexivity].
    - apply C. apply in_or_app. right. apply in_or_app. right.
      apply in_or_app. right. apply in_or_app. right. now left.
    - now destruct (_ || _). }
  split.
  - unfold waitForSubmissionSuccess, evaluateErrorText.
    unfold driverFaults in C.
    destruct (successIndicators pg) as [e|indicators];
      [apply C; now left|].
    destruct (inputValues pg) as [e|values];
      [apply C; apply in_or_app; right; now left|].
    destruct (_ || _); [reflexivity|].
    destruct (errorElements pg) as [e|elements];
      [apply C; apply in_or_app; right; apply in_or_app; right; now left|].
    destruct (0 <? List.length elements)%nat; [|exact L].
    apply C. apply in_or_app. right. apply in_or_app. right.
    apply in_or_app. right. now left.
  - intros indicators values element elements Hs Hv Signal He.
    unfold waitForSubmissionSuccess, evaluateErrorText.
    rewrite Hs, Hv, Signal, He. cbn [List.length Nat.ltb Nat.leb].
    unfold caught. rewrite (F (evaluateFault pg)); [reflexivity|].
    unfold driverFaults. apply in_or_app. right. apply in_or_app. right.
    apply in_or_app. right. now left.
Qed.

(** X23. When the configured URL ends in a slash, its last path
    segment is empty and every URL contains it: [hasUrlChanged] is false on
    every page. *)
Theorem trailing_slash_hides_url_change (cfg : Config) (pg : PageState)
  (base : string) :
  url cfg = (base ++ "/")%string ->
  hasUrlChanged cfg pg = false.
Proof.
  intros E. unfold hasUrlChanged, JsString.pop. rewrite E.
  change "/"%string with (String "/"%char EmptyString).
  rewrite split_trailing, last_last, includes_empty. reflexivity.
Qed.

(** ** Settings from the environment *)

(** X24. The [maxRetries] that the constructor reads from the
    environment is never 0: it is 3, or the non-zero integer that [parseInt]
    reads from [MAX_RETRIES]. [MAX_RETRIES=0] gives 3 retries, and
    [MAX_RETRIES=-1] gives the negative -1. *)
Theorem maxRetries_setting_never_zero (MAX_RETRIES : option string) :
  (envMaxRetries MAX_RETRIES <> 0)%Z /\
  (envMaxRetries MAX_RETRIES = 3%Z \/
   exists text, MAX_RETRIES = Some text /\
                parseInt text = Some (envMaxRetries MAX_RETRIES)) /\
  envMaxRetries (Some "0"%string) = 3%Z /\
  envMaxRetries (Some "-1"%string) = (-1)%Z.
Proof.
  unfold envMaxRetries, envInt. repeat split.
  - destruct MAX_RETRIES as [text|]; [|discriminate].
    destruct (parseInt text) as [value|]; [|discriminate].
    destruct (Z.eqb_spec value 0); [discriminate|assumption].
  - destruct MAX_RETRIES as [text|]; [|now left].
    destruct (parseInt text) as [value|] eqn:P; [|now left].
    destruct (value =? 0)%Z; [now left|].
    right. now exists text.
Qed.

(** ** The rows of a file *)

(** The handlers of [processCSV], from any row number and any lists. *)
Lemma processRows_spec (rows : list (list (string * string))) :
  forall (n : nat) (results : list FormRecord)
         (errors : list (nat * string * list (string * string))),
    let out := processRows rows n results errors in
    totalRows out = (n + List.length rows)%nat /\
    validRecords out = List.length (csvRecords out) /\
    invalidRecords out = List.length (csvErrors out) /\
    csvRecords out =
      results ++ flat_map (fun data => match validateRecord data with
                                       | Got r => [r]
                                       | Fault _ => []
                                       end) rows /\
    (List.length (csvRecords out) + List.length (csvErrors out) =
      List.length results + List.length errors + List.length rows)%nat /\
    (forall k message data,
        In (k, message, data) (csvErrors out) <->
        In (k, message, data) errors \/
        exists row, (n < k)%nat /\ nth_error rows (k - S n)%nat = Some row /\
                    validateRecord row = Fault message /\
                    data = normalizeHeaders row).
Proof.
  induction rows as [|data more IH]; intros n results errors.
  - cbn. repeat split; try lia.
    + now rewrite app_nil_r.
    + intros H; now left.
    + intros [H|(row & _ & H & _)]; [exact H|].
      now destruct (k - S n)%nat.
  - cbn [processRows]. destruct (validateRecord data) as [message|r] eqn:V.
    + specialize (IH (S n) results (errors ++ [(S n, message, normalizeHeaders data)])).
      cbn zeta in IH. destruct IH as (T & Vr & Ir & R & L & E).
      cbn zeta. repeat split; try assumption.
      * rewrite T. cbn. lia.
      * rewrite R. cbn [flat_map]. rewrite V. reflexivity.
      * rewrite L, length_app. cbn. lia.
      * intros H. apply E in H as [H|(row & K & N & F & D)].
        -- apply in_app_or in H as [H|[H|[]]]; [now left|].
           injection H as <- <- <-. right. exists data.
           rewrite Nat.sub_diag. repeat split; try lia; try assumption;
             reflexivity.
        -- right. exists row. repeat split; try lia; try assumption.
           replace (k - S n)%nat with (S (k - S (S n)))%nat by lia. exact N.
      * intros [H|(row & K & N & F & D)]; apply E.
        -- left. apply in_or_app. now left.
        -- destruct (Nat.eq_dec k (S n)) as [->|Hne].
           ++ rewrite Nat.sub_diag in N. cbn in N. injection N as <-.
              rewrite V in F. injection F as <-. subst data0.
              left. apply in_or_app. right. now left.
           ++ right. exists row. repeat split; try lia; try assumption.
              replace (k - S n)%nat with (S (k - S (S n)))%nat in N by lia. exact N.
    + specialize (IH (S n) (results ++ [r]) errors).
      cbn zeta in IH. destruct IH as (T & Vr & Ir & R & L & E).
      cbn zeta. repeat split; try assumption.
      * rewrite T. cbn. lia.
      * rewrite R. cbn [flat_map]. rewrite V, <- app_assoc. reflexivity.
      * rewrite L, length_app. cbn. lia.
      * intros H. apply E in H as [H|(row & K & N & F & D)]; [now left|].
        right. exists row. repeat split; try lia; try assumption.
        replace (k - S n)%nat with (S (k - S (S n)))%nat by lia. exact N.
      * intros [H|(row & K & N & F & D)]; apply E; [now left|].
        destruct (Nat.eq_dec k (S n)) as [->|Hne].
        -- rewrite Nat.sub_diag in N. cbn in N. injection N as <-.
           rewrite V in F. discriminate F.
        -- right. exists row. repeat split; try lia; try assumption.
           replace (k - S n)%nat with (S (k - S (S n)))%nat in N by lia. exact N.
Qed.

(** X25. [processCSV] accounts for every row: [totalRows] is the
    number of rows and the sum of [validRecords] and [invalidRecords]; the
    records are those of the rows that [validateRecord] accepts, in order;
    the errors are those of the rows it rejects, each with its row number
    counted from 1, its message and the row as normalized. *)
Theorem processCSV_accounts_for_rows (rows : list (list (string * string))) :
  let out := processCSV rows in
  totalRows out = List.length rows /\
  (validRecords out + invalidRecords out = totalRows out)%nat /\
  validRecords out = List.length (csvRecords out) /\
  invalidRecords out = List.length (csvErrors out) /\
  csvRecords out =
    flat_map (fun data => match validateRecord data with
                          | Got r => [r]
                          | Fault _ => []
                          end) rows /\
  (forall k message data,
      In (k, message, data) (csvErrors out) <->
      exists row, (1 <= k)%nat /\ nth_error rows (k - 1)%nat = Some row /\
                  validateRecord row = Fault message /\
                  data = normalizeHeaders row).
Proof.
  destruct (processRows_spec rows 0 [] []) as (T & Vr & Ir & R & L & E).
  unfold processCSV. cbn zeta. repeat split; try assumption.
  - rewrite Vr, Ir, T, L. cbn. lia.
  - intros H. apply E in H as [[]|(row & K & N & F & D)].
    exists row. now repeat split.
  - intros (row & K & N & F & D). apply E. right. exists row. now repeat split.
Qed.

(** ** The further statements at concrete inputs *)

Transparent await.

(** The three-record scenario: three entries, the cursor at 3. *)
Lemma run_entries_within_witness :
  isRunning (engine (boot (withMaxRetries 1 defaultConfig))) = false
  /\ records (engine threeRecordEnd) = three
  /\ (0 <= currentIndex (engine threeRecordEnd))%nat
  /\ ((0 <= List.length three)%nat ->
      (currentIndex (engine threeRecordEnd) <= List.length three)%nat)
  /\ oneEntryWithin 0 (engine threeRecordEnd)
  /\ finalized (engine threeRecordEnd)
     = (currentIndex (engine threeRecordEnd) - 0)%nat.
Proof.
  split; [reflexivity|].
  apply (run_entries_within 3 threeRecordWorld three 0
           (boot (withMaxRetries 1 defaultConfig)) Normal threeRecordEnd);
    [reflexivity | vm_compute; reflexivity].
Defined.

(** The entries of the three-record scenario, with [maxRetries = 1]. *)
Lemma run_entries_well_formed_witness :
  (forall entry,
     In entry (successful (results (engine threeRecordEnd))) ->
     nth_error three (index entry) = Some (record entry)
     /\ error entry = None
     /\ (1 <= attempts entry <= 1 + 1)%Z)
  /\
  (forall entry,
     In entry (failed (results (engine threeRecordEnd))) ->
     nth_error three (index entry) = Some (record entry)
     /\ (exists message, error entry = Some message)
     /\ attempts entry = (1 + 1)%Z).
Proof.
  apply (run_entries_well_formed 3 threeRecordWorld three 0
           (boot (withMaxRetries 1 defaultConfig)) Normal threeRecordEnd);
    [reflexivity | vm_compute; reflexivity].
Defined.

(** The indices of the three-record scenario: 0 and 1 accepted, 2 failed. *)
Lemma run_entries_ascending_witness :
  map index (successful (results (engine threeRecordEnd))) = [0; 1]%nat
  /\ map index (failed (results (engine threeRecordEnd))) = [2]%nat
  /\ ascending (successful (results (engine threeRecordEnd)))
  /\ ascending (failed (results (engine threeRecordEnd)))
  /\ forall entry,
       In entry (successful (results (engine threeRecordEnd))
                 ++ failed (results (engine threeRecordEnd))) ->
       (index entry < currentIndex (engine threeRecordEnd))%nat.
Proof.
  split; [reflexivity|]. split; [reflexivity|].
  apply (run_entries_ascending 3 threeRecordWorld three 0
           (boot (withMaxRetries 1 defaultConfig)) Normal threeRecordEnd);
    [reflexivity | vm_compute; reflexivity].
Defined.

(** The form cannot be reached: the call throws and no record is touched. *)
Lemma navigation_failure_is_fatal_witness :
  exists m',
    startAutomation 3 navigationFailsWorld three 0 (boot defaultConfig)
    = Some (Throw ("Navigation failed: " ++ "net::ERR_CONNECTION_REFUSED")%string,
            m')
    /\ isRunning (engine m') = false
    /\ currentIndex (engine m') = 0%nat
    /\ results (engine m') = emptyResults
    /\ raised m' = raised (boot defaultConfig)
    /\ tick m' = S (tick (boot defaultConfig)).
Proof.
  apply (navigation_failure_is_fatal 3 navigationFailsWorld three 0
           (boot defaultConfig) "net::ERR_CONNECTION_REFUSED");
    reflexivity.
Defined.

(** After the three-record scenario the engine is idle with its records. *)
Lemma resume_never_restarts_witness :
  resume 3 (script []) threeRecordEnd
  = Some (Throw "Automation is already running",
          onEngine (setRunning true) threeRecordEnd)
  /\ (forall fuel' w' recs s,
        startAutomation fuel' w' recs s (onEngine (setRunning true) threeRecordEnd)
        = Some (Throw "Automation is already running",
                onEngine (setRunning true) threeRecordEnd))
  /\ (forall fuel' w',
        resume fuel' w' (onEngine (setRunning true) threeRecordEnd)
        = Some (Normal, onEngine (setRunning true) threeRecordEnd)).
Proof.
  apply (resume_never_restarts 3 (script []) threeRecordEnd);
    [reflexivity | vm_compute; discriminate].
Defined.

(** [MAX_RETRIES=-1] and three records in a quiet world. *)
Lemma negative_maxRetries_never_ends_witness :
  (maxRetries (withMaxRetries (-1) defaultConfig) < 0)%Z
  /\ startAutomation 100 (script []) three 0
       (boot (withMaxRetries (-1) defaultConfig)) = None.
Proof.
  split; [reflexivity|].
  apply (negative_maxRetries_never_ends (script []) three 0
           (boot (withMaxRetries (-1) defaultConfig)));
    [reflexivity | now apply script_noStop | reflexivity | reflexivity
    | vm_compute; lia].
Defined.

(** The three-record scenario: three retries, three attempts beyond the
    first. *)
Lemma retries_account_for_attempts_witness :
  (accountedAttempts (engine threeRecordEnd)
   <= Z.of_nat (retries (results (engine threeRecordEnd))))%Z
  /\ (retries (results (engine threeRecordEnd))
      + List.length (raised (boot (withMaxRetries 1 defaultConfig))))%nat
     = List.length (raised threeRecordEnd)
  /\ (Normal = Normal ->
      (List.length three <= currentIndex (engine threeRecordEnd))%nat ->
      Z.of_nat (retries (results (engine threeRecordEnd)))
      = accountedAttempts (engine threeRecordEnd)).
Proof.
  apply (retries_account_for_attempts 3 threeRecordWorld three 0
           (boot (withMaxRetries 1 defaultConfig)) Normal threeRecordEnd);
    [reflexivity | vm_compute; reflexivity].
Defined.


(** Five records in a quiet world, from the third on. *)
Lemma run_from_any_index_completes_witness :
  exists m',
    startAutomation (List.length five - 2) (script []) five 2 (boot defaultConfig)
    = Some (Normal, m')
    /\ currentIndex (engine m') = List.length five
    /\ finalized (engine m') = (List.length five - 2)%nat.
Proof.
  apply (run_from_any_index_completes (script []) five 2 (boot defaultConfig));
    [reflexivity | vm_compute; discriminate | now apply script_noStop
    | now apply script_noFault | vm_compute; lia].
Defined.

(** The first attempt of the first of five records fails and the page
    refresh fails. *)
Lemma refresh_failure_aborts_run_witness :
  exists m',
    automationLoop 5 refreshFailsWorld (started five defaultConfig)
    = Some (Throw "Navigation timeout", m')
    /\ currentIndex (engine m') = 0%nat
    /\ successful (results (engine m')) = []
    /\ failed (results (engine m')) = []
    /\ retries (results (engine m')) = 1%nat
    /\ raised m' = [] ++ [(0%nat, "Field answer-5 (Email) not found"%string)].
Proof.
  apply (refresh_failure_aborts_run 4 refreshFailsWorld
           (started five defaultConfig) (person "Ada" "Lovelace")
           "Field answer-5 (Email) not found" "Navigation timeout");
    [reflexivity | reflexivity | vm_compute; discriminate | reflexivity
    | reflexivity].
Defined.

(** "Unmarried" contains "married" and comes first: it is selected for the
    value "Married". *)
Lemma first_containing_option_wins_witness :
  fillSelectField maritalOptions "Married" "Marital Status"
  = Got "unmarried"%string.
Proof.
  apply (first_containing_option_wins
           [{| optionValue := EmptyString; optionText := "Choose one" |};
            {| optionValue := "single"; optionText := "Single" |}]
           [{| optionValue := "married"; optionText := "Married" |}]
           {| optionValue := "unmarried"; optionText := "Unmarried" |}
           "Married" "Marital Status");
    [repeat constructor | reflexivity].
Defined.

(** The sub-teams of the sample row on three boxes. *)
Lemma fillSubTeams_checks_matching_witness :
  map inputChecked (fillSubTeams "Media, Ushering" teamBoxes)
  = [true; true; false]
  /\ fillSubTeams "Media, Ushering" (fillSubTeams "Media, Ushering" teamBoxes)
     = fillSubTeams "Media, Ushering" teamBoxes.
Proof.
  split; [reflexivity|].
  apply (proj2 (fillSubTeams_checks_matching "Media, Ushering" teamBoxes
                  (fun E => eq_ind "Media, Ushering"%string
                              (fun s => match s with
                                        | EmptyString => False
                                        | String _ _ => True
                                        end) I EmptyString E)
                  ltac:(repeat constructor))).
Defined.

(** "Media," checks the three boxes. *)
Lemma trailing_comma_checks_every_box_witness :
  Forall (fun box => inputChecked box = true)
         (fillSubTeams ("Media" ++ ",") teamBoxes).
Proof.
  apply (trailing_comma_checks_every_box "Media" teamBoxes).
  repeat constructor.
Defined.

(** The sample row, dated: its Gender and Cell Name columns are dropped. *)
Lemma validateRecord_keeps_listed_fields_witness :
  property datedRow "Gender" = Some "Male"%string
  /\ property datedRow "Cell Name" = Some "Victory Cell"%string
  /\ (forall key value,
        property (recordOf (validateRecord datedRow)) key = Some value ->
        In key (requiredFields ++ optionalFields))
  /\ property (recordOf (validateRecord datedRow)) "Gender" = None
  /\ property (recordOf (validateRecord datedRow)) "Cell Name" = None
  /\ property (recordOf (validateRecord datedRow)) "Name of Cell" = None.
Proof.
  split; [reflexivity|]. split; [reflexivity|].
  apply (validateRecord_keeps_listed_fields datedRow
           (recordOf (validateRecord datedRow))).
  vm_compute; reflexivity.
Defined.

(** The sample row, dated: its cell "Victory Cell" is entered as
    "Test Cell". *)
Lemma csv_gender_and_cell_never_reach_the_form_witness :
  In ("answer-8", "Male", "Gender")%string
     (fillFormCalls (recordOf (validateRecord datedRow)))
  /\ In ("answer-12", "Test Cell", "Cell Name")%string
        (fillFormCalls (recordOf (validateRecord datedRow)))
  /\ (forall value,
        In ("answer-8", value, "Gender")%string
           (fillFormCalls (recordOf (validateRecord datedRow))) ->
        value = "Male"%string)
  /\ (forall value,
        In ("answer-12", value, "Cell Name")%string
           (fillFormCalls (recordOf (validateRecord datedRow))) ->
        value = "Test Cell"%string).
Proof.
  apply (csv_gender_and_cell_never_reach_the_form datedRow
           (recordOf (validateRecord datedRow))).
  vm_compute; reflexivity.
Defined.

(** The sample row, dated. *)
Lemma validated_record_fills_every_field_witness :
  (forall field,
     In field requiredFields ->
     exists value,
       property (recordOf (validateRecord datedRow)) field = Some value
       /\ value <> EmptyString)
  /\ List.length (fillFormCalls (recordOf (validateRecord datedRow))) = 13%nat.
Proof.
  apply (validated_record_fills_every_field datedRow
           (recordOf (validateRecord datedRow)));
    [|vm_compute; reflexivity].
  vm_compute.
  repeat (constructor; [cbn; intuition discriminate|]).
  constructor.
Defined.

(** The birthday of the sample row. *)
Lemma ordinal_birthday_is_rejected_witness :
  property (hd [] generateSampleCSV) "Birthday"
  = Some ("15" ++ String "t" "h March 1985")%string
  /\ validateBirthday ("15" ++ String "t" "h March 1985") "Birthday"
     = Fault ("Invalid birthday format: " ++ ("15" ++ String "t" "h March 1985")
              ++ ". Use DD/MM/YYYY or similar")%string.
Proof.
  split; [reflexivity|].
  apply (ordinal_birthday_is_rejected "15" "h March 1985" "Birthday" "t");
    reflexivity.
Defined.

(** The page that shows only the error text "Invalid email": nothing is
    thrown, and the failure of [page.evaluate] is taken for a success. *)
Lemma detection_never_throws_witness :
  errorElements (rejectedPage "Invalid email") = Got ["Invalid email"%string]
  /\ thrown (waitForSubmissionSuccess defaultConfig
               (rejectedPage "Invalid email")) = None
  /\ waitForSubmissionSuccess defaultConfig (rejectedPage "Invalid email")
     = CheckFailed handlesTypeError.
Proof.
  split; [reflexivity|].
  assert (F : Forall
                (fun e => JsString.includes "Form validation error" e = false)
                (driverFaults (rejectedPage "Invalid email")))
    by (repeat constructor).
  split.
  - exact (proj1 (detection_never_throws defaultConfig
                    (rejectedPage "Invalid email") F)).
  - exact (proj2 (detection_never_throws defaultConfig
                    (rejectedPage "Invalid email") F)
             0%nat ["Ada"%string; "Lovelace"%string] "Invalid email"%string []
             eq_refl eq_refl eq_refl eq_refl).
Defined.

(** With a slash at the end of the URL, a page elsewhere is not seen as a
    change. *)
Lemma trailing_slash_hides_url_change_witness :
  hasUrlChanged slashConfig (rejectedPage "Invalid email") = false
  /\ hasUrlChanged slashConfig
       {| currentUrl := "https://example.org/thanks";
          successIndicators := Got 0%nat;
          inputValues := Got ["Ada"%string];
          errorElements := Got [];
          evaluateFault := handlesTypeError;
          submitButton := Got None |} = false.
Proof.
  split;
    apply (trailing_slash_hides_url_change slashConfig _
             "https://kingsforms.online/nobphcephzone3");
    reflexivity.
Defined.
